(** * update_tech_stack.py: language aggregation and README splice

    A shallow embedding of [scripts/update_tech_stack.py].

    - Python [str] values are sequences of Unicode code points: a string is
      a [list N].
    - Python [dict]s keep insertion order, and the order decides how ties are
      broken by [sorted]: a [dict] is an association list with unique keys.
    - The JSON bodies have the shape of the GitHub API: a page of the
      listing is a list of repositories (name, fork flag), the languages of
      a repository are a [dict] from language name to a byte count, a
      non-negative integer ([N]).
    - [int / int], [* 100] and [>= 0.5] are binary64 operations: a finite
      value is a mantissa and an exponent, and rounding is to nearest, ties
      to even.
    - Network access and the README file are threaded through an explicit
      world state; exceptions are a result type; the unbounded pagination
      loop takes a bound on the number of pages.
    - [print] calls are not modelled: nothing in the program reads the
      console back. *)

From Stdlib Require Import String Ascii DecimalString.
From Stdlib Require Import List NArith ZArith Lia Bool.
From Stdlib Require Import Permutation Sorted.
Import ListNotations.

(** ** Strings *)

Abbreviation char := N (only parsing).
Abbreviation pystr := (list N) (only parsing).

(** An ASCII literal of the source, as code points. *)
Definition lit (s : string) : pystr :=
  map N_of_ascii (list_ascii_of_string s).

Definition nl : pystr := [10%N].

Definition pystr_eqb (a b : pystr) : bool :=
  if list_eq_dec N.eq_dec a b then true else false.

(** [x in xs] for a collection of strings. *)
Definition mem (x : pystr) (xs : list pystr) : bool := existsb (pystr_eqb x) xs.

(** [sep.join(parts)] *)
Fixpoint join (sep : pystr) (parts : list pystr) : pystr :=
  match parts with
  | [] => []
  | [p] => p
  | p :: rest => p ++ sep ++ join sep rest
  end.

(** ** Substring search

    [strip_prefix pat txt] is [Some rest] when [txt = pat ++ rest]
    ([txt.startswith(pat)]); [cut pat txt] splits [txt] around the first
    (leftmost) occurrence of [pat], as [txt.partition(pat)] does. *)

Fixpoint strip_prefix (pat txt : pystr) : option pystr :=
  match pat, txt with
  | [], _ => Some txt
  | _ :: _, [] => None
  | p :: pat', c :: txt' => if N.eqb p c then strip_prefix pat' txt' else None
  end.

Fixpoint cut (pat txt : pystr) : option (pystr * pystr) :=
  match strip_prefix pat txt with
  | Some rest => Some ([], rest)
  | None =>
      match txt with
      | [] => None
      | c :: t =>
          match cut pat t with
          | Some (a, b) => Some (c :: a, b)
          | None => None
          end
      end
  end.

(** [pat in txt] *)
Definition contains (pat txt : pystr) : bool :=
  match cut pat txt with Some _ => true | None => false end.

(** The first occurrence of [pat] in [a ++ pat] is the one at the end. *)
Definition first_at (pat a : pystr) : Prop := cut pat (a ++ pat) = Some (a, []).

(** No proper non-empty prefix of [pat] is also a suffix of it: two
    occurrences of [pat] never overlap. *)
Definition unbordered (pat : pystr) : bool :=
  forallb (fun k => match strip_prefix pat (firstn k pat ++ pat) with
                    | Some _ => false
                    | None => true
                    end)
          (seq 1 (length pat - 1)).


(** ** Outcomes of running Python code *)

Inductive exn : Type :=
| HTTPError          (* requests.exceptions.HTTPError, from raise_for_status *)
| ZeroDivisionError
| OverflowError
| ReError.           (* re.error (or IndexError) for a bad replacement template *)

Inductive outcome (A : Type) : Type :=
| Ok (a : A)
| Raise (e : exn)
| OutOfFuel.         (* the loop bound of the model was reached *)

Arguments Ok {A} a.
Arguments Raise {A} e.
Arguments OutOfFuel {A}.

(** ** The regular expression of [update_readme]

    [pattern = r"<!-- TECH-STACK-START -->.*?<!-- TECH-STACK-END -->"], used
    with [re.DOTALL]: the two sentinels are literal text and [.*?] is a lazy
    run of arbitrary characters, newlines included. *)

Definition START : pystr := lit "<!-- TECH-STACK-START -->".
Definition END : pystr := lit "<!-- TECH-STACK-END -->".

(** A match anchored at the beginning of [txt]: the start sentinel, then the
    shortest run of characters followed by the end sentinel. Returns the
    matched text and what follows it. *)
Definition match_here (txt : pystr) : option (pystr * pystr) :=
  match strip_prefix START txt with
  | Some r =>
      match cut END r with
      | Some (mid, rest) => Some (START ++ mid ++ END, rest)
      | None => None
      end
  | None => None
  end.

(** [re.search(pattern, txt, re.DOTALL)]: the match at the leftmost position
    that has one, as (text before, matched text, text after). *)
Fixpoint re_search (txt : pystr) : option (pystr * pystr * pystr) :=
  match match_here txt with
  | Some (m, rest) => Some ([], m, rest)
  | None =>
      match txt with
      | [] => None
      | c :: t =>
          match re_search t with
          | Some (pre, m, rest) => Some (c :: pre, m, rest)
          | None => None
          end
      end
  end.

(** *** Replacement templates

    [re.sub] reads its replacement string as a template in which a backslash
    starts an escape ([re._parser.parse_template], here as of CPython 3.12).
    The pattern has no capture group, so the only group that can be referred
    to is group 0, the whole match. *)

Inductive tpl_item : Type :=
| TChar (c : char)
| TWhole.                      (* \g<0> *)

Definition template := list tpl_item.

Definition backslash : char := 92%N.

Definition is_digit (c : char) : bool := (48 <=? c)%N && (c <=? 57)%N.
Definition is_octdigit (c : char) : bool := (48 <=? c)%N && (c <=? 55)%N.
Definition is_ascii_letter (c : char) : bool :=
  ((65 <=? c)%N && (c <=? 90)%N) || ((97 <=? c)%N && (c <=? 122)%N).

Definition digit_val (c : char) : N := (c - 48)%N.

(** [ESCAPES] of [re._parser]: a b f n r t v and the backslash itself. *)
Definition escape_of (c : char) : option char :=
  if (c =? 97)%N then Some 7%N
  else if (c =? 98)%N then Some 8%N
  else if (c =? 102)%N then Some 12%N
  else if (c =? 110)%N then Some 10%N
  else if (c =? 114)%N then Some 13%N
  else if (c =? 116)%N then Some 9%N
  else if (c =? 118)%N then Some 11%N
  else if (c =? 92)%N then Some 92%N
  else None.

(** The name in [\g<name>] refers to group 0 when it is a non-empty run of
    ASCII digits whose value is 0; any other name is an error here (an
    unknown name, or a group number above the pattern's zero groups). *)
Definition names_group_zero (name : pystr) : bool :=
  match name with
  | [] => false
  | _ => forallb (N.eqb 48%N) name
  end.

Definition tcons (i : tpl_item) (r : option template) : option template :=
  match r with Some t => Some (i :: t) | None => None end.

Fixpoint parse_template_from (fuel : nat) (s : pystr) : option template :=
  match fuel with
  | O => match s with [] => Some [] | _ => None end
  | S f =>
      match s with
      | [] => Some []
      | c :: t =>
          if negb (c =? backslash)%N then tcons (TChar c) (parse_template_from f t)
          else
            match t with
            | [] => None                          (* bad escape (end of pattern) *)
            | d :: t1 =>
                if (d =? 103)%N then              (* \g<name> *)
                  match t1 with
                  | lt :: t2 =>
                      if (lt =? 60)%N then
                        match cut [62%N] t2 with
                        | Some (name, t3) =>
                            if names_group_zero name
                            then tcons TWhole (parse_template_from f t3)
                            else None
                        | None => None
                        end
                      else None
                  | [] => None
                  end
                else if (d =? 48)%N then          (* \0, \0o, \0oo: octal escape *)
                  match t1 with
                  | o1 :: t2 =>
                      if is_octdigit o1 then
                        match t2 with
                        | o2 :: t3 =>
                            if is_octdigit o2
                            then tcons (TChar (N.land (8 * digit_val o1 + digit_val o2) 255))
                                       (parse_template_from f t3)
                            else tcons (TChar (digit_val o1)) (parse_template_from f t2)
                        | [] => Some [TChar (digit_val o1)]
                        end
                      else tcons (TChar 0%N) (parse_template_from f t1)
                  | [] => Some [TChar 0%N]
                  end
                else if is_digit d then           (* \ooo octal escape, else a group number >= 1 *)
                  match t1 with
                  | d2 :: d3 :: t3 =>
                      if is_octdigit d && is_octdigit d2 && is_octdigit d3 then
                        let v := (64 * digit_val d + 8 * digit_val d2 + digit_val d3)%N in
                        if (255 <? v)%N then None
                        else tcons (TChar v) (parse_template_from f t3)
                      else None
                  | _ => None
                  end
                else
                  match escape_of d with
                  | Some e => tcons (TChar e) (parse_template_from f t1)
                  | None =>
                      if is_ascii_letter d then None  (* bad escape *)
                      else tcons (TChar backslash)
                                 (tcons (TChar d) (parse_template_from f t1))
                  end
            end
      end
  end.

Definition parse_template (repl : pystr) : option template :=
  parse_template_from (length repl) repl.

(** The text a template stands for, given the matched text. *)
Definition expand (tpl : template) (m : pystr) : pystr :=
  flat_map (fun i => match i with TChar c => [c] | TWhole => m end) tpl.

(** Every non-overlapping match, found left to right, is replaced; the scan
    resumes after each match. A match is never empty, so [length txt] rounds
    are enough. *)
Fixpoint sub_loop (fuel : nat) (tpl : template) (txt : pystr) : pystr :=
  match fuel with
  | O => txt
  | S f =>
      match re_search txt with
      | None => txt
      | Some (pre, m, rest) => pre ++ expand tpl m ++ sub_loop f tpl rest
      end
  end.

Definition sub_all (tpl : template) (txt : pystr) : pystr :=
  sub_loop (length txt) tpl txt.

(** [re.sub(pattern, repl, txt, flags=re.DOTALL)] *)
Definition re_sub (repl txt : pystr) : outcome pystr :=
  match parse_template repl with
  | None => Raise ReError
  | Some tpl => Ok (sub_all tpl txt)
  end.

(** [txt.replace(old, new)] for a non-empty [old]: every non-overlapping
    occurrence, found left to right. *)
Fixpoint replace_loop (fuel : nat) (old new txt : pystr) : pystr :=
  match fuel with
  | O => txt
  | S f =>
      match cut old txt with
      | None => txt
      | Some (a, b) => a ++ new ++ replace_loop f old new b
      end
  end.

Definition str_replace (old new txt : pystr) : pystr :=
  replace_loop (length txt) old new txt.

(** ** Static tables *)

Definition dict (V : Type) := list (pystr * V).

Fixpoint dict_get {V : Type} (d : dict V) (k : pystr) : option V :=
  match d with
  | [] => None
  | (k', v) :: d' => if pystr_eqb k k' then Some v else dict_get d' k
  end.

(** [d[k] = v]: an existing key keeps its position, a new key goes last. *)
Fixpoint dict_set {V : Type} (d : dict V) (k : pystr) (v : V) : dict V :=
  match d with
  | [] => [(k, v)]
  | (k', v') :: d' =>
      if pystr_eqb k k' then (k', v) :: d' else (k', v') :: dict_set d' k v
  end.

Definition keys {V : Type} (d : dict V) : list pystr := map fst d.

Definition badge (alt path : string) : pystr :=
  lit "![" ++ lit alt ++ lit "](https://img.shields.io/badge/" ++ lit path ++ lit ")".

Definition BADGE_MAP : dict pystr :=
  [ (lit "Java", badge "Java" "Java-%23ED8B00.svg?style=for-the-badge&logo=openjdk&logoColor=white");
    (lit "JavaScript", badge "JavaScript" "JavaScript-%23323330.svg?style=for-the-badge&logo=javascript&logoColor=%23F7DF1E");
    (lit "TypeScript", badge "TypeScript" "TypeScript-%23007ACC.svg?style=for-the-badge&logo=typescript&logoColor=white");
    (lit "Python", badge "Python" "Python-3670A0?style=for-the-badge&logo=python&logoColor=ffdd54");
    (lit "Go", badge "Go" "Go-%2300ADD8.svg?style=for-the-badge&logo=go&logoColor=white");
    (lit "C", badge "C" "C-%2300599C.svg?style=for-the-badge&logo=c&logoColor=white");
    (lit "C++", badge "C++" "C++-%2300599C.svg?style=for-the-badge&logo=c%2B%2B&logoColor=white");
    (lit "C#", badge "C#" "C%23-%23239120.svg?style=for-the-badge&logo=csharp&logoColor=white");
    (lit "Rust", badge "Rust" "Rust-%23000000.svg?style=for-the-badge&logo=rust&logoColor=white");
    (lit "Shell", badge "Bash" "Bash-%23121011.svg?style=for-the-badge&logo=gnu-bash&logoColor=white");
    (lit "HTML", badge "HTML5" "HTML5-%23E34F26.svg?style=for-the-badge&logo=html5&logoColor=white");
    (lit "CSS", badge "CSS3" "CSS3-%231572B6.svg?style=for-the-badge&logo=css3&logoColor=white");
    (lit "Kotlin", badge "Kotlin" "Kotlin-%237F52FF.svg?style=for-the-badge&logo=kotlin&logoColor=white");
    (lit "Swift", badge "Swift" "Swift-F54A2A?style=for-the-badge&logo=swift&logoColor=white");
    (lit "Ruby", badge "Ruby" "Ruby-%23CC342D.svg?style=for-the-badge&logo=ruby&logoColor=white");
    (lit "PHP", badge "PHP" "PHP-%23777BB4.svg?style=for-the-badge&logo=php&logoColor=white");
    (lit "Scala", badge "Scala" "Scala-%23DC322F.svg?style=for-the-badge&logo=scala&logoColor=white");
    (lit "Dockerfile", badge "Docker" "Docker-%230db7ed.svg?style=for-the-badge&logo=docker&logoColor=white") ].

Definition SKIP_LANGUAGES : list pystr :=
  [lit "Makefile"; lit "Markdown"; lit "Text"; lit "YAML"; lit "JSON"; lit "TOML"; lit "XML"].

(** ** Rendering *)

Definition in_badge_map (l : pystr) : bool :=
  match dict_get BADGE_MAP l with Some _ => true | None => false end.

(** [BADGE_MAP[l]]; only evaluated for a key of the table. *)
Definition badge_of (l : pystr) : pystr :=
  match dict_get BADGE_MAP l with Some b => b | None => [] end.

Definition build_tech_stack_section (languages : list pystr) : pystr :=
  let known := filter in_badge_map languages in
  let unknown := filter (fun l => negb (in_badge_map l)) languages in
  let badges := join nl (map badge_of known) in
  let note :=
    match unknown with
    | [] => []
    | _ => nl ++ lit "<!-- Also detected (no badge yet): "
              ++ join (lit ", ") unknown ++ lit " -->"
    end in
  START ++ nl
    ++ lit "## " ++ [128736%N; 65039%N] ++ lit " Tech Stack" ++ nl
    ++ lit "> Auto-detected from my repositories" ++ nl
    ++ nl
    ++ badges ++ note ++ nl
    ++ nl
    ++ END.

(** ** Splicing the section into the document *)

Inductive action : Type := Updated | Inserted | Appended.

(** [marker = "## <bar chart emoji> GitHub Stats"] *)
Definition marker : pystr := lit "## " ++ [128202%N] ++ lit " GitHub Stats".

Definition separator : pystr := nl ++ nl ++ lit "---" ++ nl ++ nl.

(** The text transformation of [update_readme], with the [action] it
    reports. *)
Definition splice (new_section content : pystr) : outcome (pystr * action) :=
  match re_search content with
  | Some _ =>
      match re_sub new_section content with
      | Ok updated => Ok (updated, Updated)
      | Raise e => Raise e
      | OutOfFuel => OutOfFuel
      end
  | None =>
      if contains marker content
      then Ok (str_replace marker (new_section ++ separator ++ marker) content, Inserted)
      else Ok (content ++ nl ++ nl ++ new_section, Appended)
  end.

(** ** Binary64 arithmetic

    [count / total_bytes * 100 >= MIN_PERCENT] is computed in floating point:
    [/] on two [int]s is the correctly rounded quotient, [* 100] an IEEE
    multiplication by [100.0]. Only non-negative values arise; a finite
    one is [m * 2^e]. *)

Inductive float : Type :=
| Finite (m e : Z)
| Inf.

(** The integer nearest to [a / b], ties to even ([0 <= a], [0 < b]). *)
Definition rne (a b : Z) : Z :=
  let q := (a / b)%Z in
  match (2 * (a mod b) ?= b)%Z with
  | Lt => q
  | Gt => (q + 1)%Z
  | Eq => if Z.even q then q else (q + 1)%Z
  end.

(** [floor (log2 (n / d))] for positive [n] and [d]. *)
Definition ilog2_ratio (n d : Z) : Z :=
  let K := (Z.log2 d + 1)%Z in
  (Z.log2 ((n * 2 ^ K) / d) - K)%Z.

(** The binary64 value nearest to [n / d] ([0 <= n], [0 < d]): 53
    significant bits, no exponent below that of the subnormals (2^-1074),
    infinity from 2^1024 on. *)
Definition round_ratio (n d : Z) : float :=
  if (n =? 0)%Z then Finite 0 0
  else
    let q := Z.max (ilog2_ratio n d - 52) (-1074) in
    let m := rne (n * 2 ^ Z.max 0 (- q)) (d * 2 ^ Z.max 0 q) in
    if (2 ^ 2098 <=? m * 2 ^ (q + 1074))%Z then Inf else Finite m q.

(** [a / b] on [int]s. *)
Definition py_truediv (a b : N) : outcome float :=
  if (b =? 0)%N then Raise ZeroDivisionError
  else
    match round_ratio (Z.of_N a) (Z.of_N b) with
    | Inf => Raise OverflowError
    | x => Ok x
    end.

(** [x * 100] *)
Definition times100 (x : float) : float :=
  match x with
  | Finite m e => round_ratio (100 * m * 2 ^ Z.max 0 e) (2 ^ Z.max 0 (- e))
  | Inf => Inf
  end.

(** [x >= y] *)
Definition float_ge (x y : float) : bool :=
  match x, y with
  | Inf, _ => true
  | Finite _ _, Inf => false
  | Finite m1 e1, Finite m2 e2 =>
      let lo := Z.min e1 e2 in
      (m2 * 2 ^ (e2 - lo) <=? m1 * 2 ^ (e1 - lo))%Z
  end.

(** [MIN_PERCENT = 0.5] *)
Definition MIN_PERCENT : float := Finite 1 (-1).

(** The test of the filter, [(count / total_bytes * 100) >= MIN_PERCENT]. *)
Definition share_ok (count total_bytes : N) : outcome bool :=
  match py_truediv count total_bytes with
  | Ok x => Ok (float_ge (times100 x) MIN_PERCENT)
  | Raise e => Raise e
  | OutOfFuel => OutOfFuel
  end.

(** ** Aggregation, filter and order *)

(** One round of the inner loop of [detect_languages]. *)
Definition add_language (totals : dict N) (item : pystr * N) : dict N :=
  let '(lang, bytes_count) := item in
  if negb (mem lang SKIP_LANGUAGES)
  then dict_set totals lang
         (match dict_get totals lang with Some v => v | None => 0 end + bytes_count)%N
  else totals.

Definition add_languages (totals : dict N) (langs : dict N) : dict N :=
  fold_left add_language langs totals.

(** [sum(totals.values())] *)
Definition sum_values (d : dict N) : N := fold_right (fun kv s => (snd kv + s)%N) 0%N d.

(** The dict comprehension that keeps the languages passing the test. *)
Fixpoint filter_share (total_bytes : N) (items : dict N) : outcome (dict N) :=
  match items with
  | [] => Ok []
  | (lang, count) :: rest =>
      match share_ok count total_bytes with
      | Ok b =>
          match filter_share total_bytes rest with
          | Ok r => Ok (if b then (lang, count) :: r else r)
          | Raise e => Raise e
          | OutOfFuel => OutOfFuel
          end
      | Raise e => Raise e
      | OutOfFuel => OutOfFuel
      end
  end.

(** [sorted(xs, key=key, reverse=True)]: descending, and stable (elements
    with equal keys keep their order). *)
Fixpoint insert_desc (key : pystr -> N) (x : pystr) (l : list pystr) : list pystr :=
  match l with
  | [] => [x]
  | y :: r => if (key y <=? key x)%N then x :: y :: r else y :: insert_desc key x r
  end.

Definition sorted_desc (key : pystr -> N) (l : list pystr) : list pystr :=
  fold_right (insert_desc key) [] l.

(** [filtered.get], as the sort key; it is only applied to keys of the dict. *)
Definition get_count (d : dict N) (k : pystr) : N :=
  match dict_get d k with Some v => v | None => 0%N end.

(** The part of [detect_languages] after the fetch loop. *)
Definition rank_languages (totals : dict N) : outcome (list pystr) :=
  match totals with
  | [] => Ok []
  | _ =>
      let total_bytes := sum_values totals in
      match filter_share total_bytes totals with
      | Ok filtered => Ok (sorted_desc (get_count filtered) (keys filtered))
      | Raise e => Raise e
      | OutOfFuel => OutOfFuel
      end
  end.

(** ** The outside world: GitHub and the README file *)

Record config : Type := { USERNAME : pystr; TOKEN : pystr }.

Record request : Type := { url : pystr; headers : list (pystr * pystr) }.

Record repo : Type := { repo_name : pystr; repo_fork : bool }.

Record response (A : Type) : Type := { status_code : N; json : A }.

Arguments status_code {A} r.
Arguments json {A} r.

(** The two endpoints answer a request given how many requests came
    before; every request sent is logged. *)
Record world : Type := {
  repos_api : nat -> request -> response (list repo);
  languages_api : nat -> request -> response (dict N);
  sent : list request;
  readme : pystr
}.

Definition M (A : Type) : Type := world -> outcome A * world.

Definition ret {A : Type} (a : A) : M A := fun w => (Ok a, w).

Definition raise {A : Type} (e : exn) : M A := fun w => (Raise e, w).

Definition bind {A B : Type} (c : M A) (k : A -> M B) : M B :=
  fun w =>
    match c w with
    | (Ok a, w') => k a w'
    | (Raise e, w') => (Raise e, w')
    | (OutOfFuel, w') => (OutOfFuel, w')
    end.

Notation "x <- c ;; k" := (bind c (fun x => k))
  (at level 61, c at next level, right associativity).

Definition lift {A : Type} (o : outcome A) : M A := fun w => (o, w).

Definition log_request (r : request) (w : world) : world :=
  {| repos_api := repos_api w; languages_api := languages_api w;
     sent := sent w ++ [r]; readme := readme w |}.

Definition HEADERS (cfg : config) : list (pystr * pystr) :=
  [ (lit "Authorization", lit "Bearer " ++ TOKEN cfg);
    (lit "Accept", lit "application/vnd.github+json") ].

(** [requests.get(url, headers=HEADERS)], at either endpoint. *)
Definition requests_get_repos (cfg : config) (u : pystr) : M (response (list repo)) :=
  fun w =>
    let r := {| url := u; headers := HEADERS cfg |} in
    (Ok (repos_api w (length (sent w)) r), log_request r w).

Definition requests_get_languages (cfg : config) (u : pystr) : M (response (dict N)) :=
  fun w =>
    let r := {| url := u; headers := HEADERS cfg |} in
    (Ok (languages_api w (length (sent w)) r), log_request r w).

(** [resp.raise_for_status()]: client and server error codes raise. *)
Definition raise_for_status {A : Type} (resp : response A) : M unit :=
  if ((400 <=? status_code resp) && (status_code resp <? 600))%N
  then raise HTTPError
  else ret tt.

(** [str(page)] *)
Definition str_of_N (n : N) : pystr := lit (NilZero.string_of_uint (N.to_uint n)).

Definition repos_url (cfg : config) (page : N) : pystr :=
  lit "https://api.github.com/users/" ++ USERNAME cfg
    ++ lit "/repos?per_page=100&page=" ++ str_of_N page ++ lit "&type=owner".

Definition languages_url (cfg : config) (name : pystr) : pystr :=
  lit "https://api.github.com/repos/" ++ USERNAME cfg ++ lit "/" ++ name
    ++ lit "/languages".

(** The [while True] loop of [get_all_repos], bounded by [fuel] pages. *)
Fixpoint get_all_repos_from (cfg : config) (fuel : nat) (page : N) (repos : list repo)
  : M (list repo) :=
  match fuel with
  | O => lift OutOfFuel
  | S f =>
      resp <- requests_get_repos cfg (repos_url cfg page) ;;
      _ <- raise_for_status resp ;;
      match json resp with
      | [] => ret repos
      | data => get_all_repos_from cfg f (page + 1)%N (repos ++ data)
      end
  end.

Definition get_all_repos (cfg : config) (fuel : nat) : M (list repo) :=
  get_all_repos_from cfg fuel 1%N [].

Definition get_repo_languages (cfg : config) (name : pystr) : M (dict N) :=
  resp <- requests_get_languages cfg (languages_url cfg name) ;;
  if (status_code resp =? 200)%N then ret (json resp) else ret [].

(** The [for repo in repos] loop of [detect_languages]. *)
Fixpoint tally_repos (cfg : config) (repos : list repo) (totals : dict N) : M (dict N) :=
  match repos with
  | [] => ret totals
  | r :: rest =>
      if repo_fork r then tally_repos cfg rest totals
      else
        langs <- get_repo_languages cfg (repo_name r) ;;
        tally_repos cfg rest (add_languages totals langs)
  end.

Definition detect_languages (cfg : config) (fuel : nat) : M (list pystr) :=
  repos <- get_all_repos cfg fuel ;;
  totals <- tally_repos cfg repos [] ;;
  lift (rank_languages totals).

Definition write_readme (s : pystr) : M unit :=
  fun w => (Ok tt, {| repos_api := repos_api w; languages_api := languages_api w;
                      sent := sent w; readme := s |}).

Definition update_readme (new_section : pystr) : M action :=
  fun w =>
    match splice new_section (readme w) with
    | Ok (updated, act) =>
        match write_readme updated w with
        | (Ok _, w') => (Ok act, w')
        | (Raise e, w') => (Raise e, w')
        | (OutOfFuel, w') => (OutOfFuel, w')
        end
    | Raise e => (Raise e, w)
    | OutOfFuel => (OutOfFuel, w)
    end.

(** The entry point. *)
Definition main (cfg : config) (fuel : nat) : M unit :=
  languages <- detect_languages cfg fuel ;;
  match languages with
  | [] => ret tt
  | _ => _ <- update_readme (build_tech_stack_section languages) ;; ret tt
  end.

(** ** Notions used in the statements *)

(** No backslash: [re.sub] takes such a replacement literally. *)
Definition not_backslash (c : char) : bool := negb (c =? backslash)%N.

Definition not_lt (c : char) : bool := negb (c =? 60)%N.

Definition no_backslash (s : pystr) : bool := forallb not_backslash s.

(** A language name without a backslash and without the character that
    opens a sentinel. *)
Definition clean_name (l : pystr) : bool :=
  forallb (fun c => not_lt c && not_backslash c) l.

(** What [build_tech_stack_section] puts between the two sentinels. *)
Definition section_body (languages : list pystr) : pystr :=
  let known := filter in_badge_map languages in
  let unknown := filter (fun l => negb (in_badge_map l)) languages in
  let badges := join nl (map badge_of known) in
  let note :=
    match unknown with
    | [] => []
    | _ => nl ++ lit "<!-- Also detected (no badge yet): "
              ++ join (lit ", ") unknown ++ lit " -->"
    end in
  nl ++ lit "## " ++ [128736%N; 65039%N] ++ lit " Tech Stack" ++ nl
    ++ lit "> Auto-detected from my repositories" ++ nl
    ++ nl
    ++ badges ++ note ++ nl
    ++ nl.

(** [txt.rpartition(pat)]: the split around the last occurrence. *)
Definition cut_last (pat txt : pystr) : option (pystr * pystr) :=
  match cut (rev pat) (rev txt) with
  | Some (a, b) => Some (rev b, rev a)
  | None => None
  end.

(** The update path as the specification words it: the region runs from the
    first start sentinel to the last end sentinel (a greedy match) and is
    replaced as a whole. *)
Definition splice_greedy (new_section content : pystr) : option pystr :=
  match cut START content with
  | Some (p, r) =>
      match cut_last END r with
      | Some (_, rest) => Some (p ++ new_section ++ rest)
      | None => None
      end
  | None => None
  end.

(** The insert path as the specification words it: the section goes before
    the marker and the rest of the document is unchanged. *)
Definition insert_before_marker (new_section content : pystr) : option pystr :=
  match cut marker content with
  | Some (a, b) => Some (a ++ new_section ++ separator ++ marker ++ b)
  | None => None
  end.

(** ** Sample inputs *)

Definition python_section : pystr := build_tech_stack_section [lit "Python"].

(** A document with one start sentinel and two end sentinels. *)
Definition doc_two_ends : pystr := START ++ lit "a" ++ END ++ lit "b" ++ END.

(** A document in which the marker heading occurs twice. *)
Definition doc_two_markers : pystr := marker ++ nl ++ marker.

(** A document that holds a start sentinel and no end sentinel. *)
Definition doc_dangling_start : pystr := START.

Definition doc_with_region : pystr :=
  lit "# Hi" ++ nl ++ START ++ lit "old" ++ END ++ nl ++ lit "bye".

Definition doc_with_marker : pystr :=
  lit "# Hi" ++ nl ++ marker ++ nl ++ lit "stats".

Definition doc_plain : pystr := lit "# Hi" ++ nl ++ lit "nothing here".

(** The fetch loop of [detect_languages] by itself: the aggregated tally. *)
Definition aggregate (cfg : config) (fuel : nat) : M (dict N) :=
  repos <- get_all_repos cfg fuel ;;
  tally_repos cfg repos [].

Definition sample_cfg : config := {| USERNAME := lit "nikomakr"; TOKEN := [] |}.

(** One page of two repositories, one of them a fork; every repository
    reports the same three languages. *)
Definition sample_world : world :=
  {| repos_api := fun i _ =>
       match i with
       | O => {| status_code := 200%N;
                 json := [ {| repo_name := lit "demo"; repo_fork := false |};
                           {| repo_name := lit "copy"; repo_fork := true |} ] |}
       | _ => {| status_code := 200%N; json := [] |}
       end;
     languages_api := fun _ _ =>
       {| status_code := 200%N;
          json := [ (lit "Dockerfile", 5%N); (lit "Makefile", 5000%N);
                    (lit "Python", 995%N) ] |};
     sent := [];
     readme := doc_with_marker |}.

(** The listing answers one page, then fails with status 500. *)
Definition failing_world : world :=
  {| repos_api := fun i _ =>
       match i with
       | O => {| status_code := 200%N;
                 json := [ {| repo_name := lit "demo"; repo_fork := false |} ] |}
       | _ => {| status_code := 500%N; json := [] |}
       end;
     languages_api := fun _ _ =>
       {| status_code := 404%N; json := [(lit "Python", 1%N)] |};
     sent := [];
     readme := doc_with_marker |}.

Definition repos_request (cfg : config) (page : N) : request :=
  {| url := repos_url cfg page; headers := HEADERS cfg |}.

Definition languages_request (cfg : config) (name : pystr) : request :=
  {| url := languages_url cfg name; headers := HEADERS cfg |}.

(** The value of the [Authorization] header of a request, if it has one. *)
Definition authorization (r : request) : option pystr :=
  dict_get (headers r) (lit "Authorization").

(** One repository of about twenty petabytes. *)
Definition huge_world : world :=
  {| repos_api := fun i _ =>
       match i with
       | O => {| status_code := 200%N;
                 json := [ {| repo_name := lit "demo"; repo_fork := false |} ] |}
       | _ => {| status_code := 200%N; json := [] |}
       end;
     languages_api := fun _ _ =>
       {| status_code := 200%N;
          json := [ (lit "Dockerfile", 100000000000000%N);
                    (lit "Python", 19900000000000001%N) ] |};
     sent := [];
     readme := doc_with_marker |}.

(** What holds of the tally throughout the fetch loop. *)
Definition tally_ok (totals : dict N) : Prop :=
  NoDup (keys totals) /\ forall l, In l (keys totals) -> ~ In l SKIP_LANGUAGES.

Definition passes (total_bytes : N) (kv : pystr * N) : bool :=
  match share_ok (snd kv) total_bytes with Ok true => true | _ => false end.

Definition desc (key : pystr -> N) (a b : pystr) : Prop := (key b <= key a)%N.

(** The bytes that one mapping, read as its list of items, reports for a
    language. *)
Definition bytes_of (langs : dict N) (l : pystr) : N :=
  fold_right (fun kv s => if pystr_eqb (fst kv) l then (snd kv + s)%N else s) 0%N langs.

(** The requests of pages [page], [page + 1], ..., [count] of them. *)
Definition page_requests (cfg : config) (page : N) (count : nat) : list request :=
  map (fun i => repos_request cfg (page + N.of_nat i)%N) (seq 0 count).

(** A listing that never runs out: every page holds one repository. *)
Definition endless_world : world :=
  {| repos_api := fun _ _ =>
       {| status_code := 200%N;
          json := [ {| repo_name := lit "demo"; repo_fork := true |} ] |};
     languages_api := fun _ _ => {| status_code := 200%N; json := [] |};
     sent := [];
     readme := doc_plain |}.

(** One repository whose only language is reported with zero bytes. *)
Definition zero_world : world :=
  {| repos_api := fun i _ =>
       match i with
       | O => {| status_code := 200%N;
                 json := [ {| repo_name := lit "demo"; repo_fork := false |} ] |}
       | _ => {| status_code := 200%N; json := [] |}
       end;
     languages_api := fun _ _ =>
       {| status_code := 200%N; json := [ (lit "Python", 0%N) ] |};
     sent := [];
     readme := doc_with_marker |}.

(** * Properties *)

(** ** Strings *)

Lemma pystr_eqb_eq (a b : pystr) : pystr_eqb a b = true <-> a = b.
Proof.
  unfold pystr_eqb. destruct (list_eq_dec N.eq_dec a b); split; congruence.
Qed.

Lemma pystr_eqb_neq (a b : pystr) : pystr_eqb a b = false <-> a <> b.
Proof.
  unfold pystr_eqb. destruct (list_eq_dec N.eq_dec a b); split; congruence.
Qed.

Lemma pystr_eqb_refl (a : pystr) : pystr_eqb a a = true.
Proof. now apply pystr_eqb_eq. Qed.

Lemma mem_In (x : pystr) (xs : list pystr) : mem x xs = true <-> In x xs.
Proof.
  unfold mem. rewrite existsb_exists. split.
  - intros [y [Hy He]]. apply pystr_eqb_eq in He. now subst.
  - intros H. exists x. split; [assumption | apply pystr_eqb_refl].
Qed.

(** ** Substring search *)

Lemma strip_prefix_Some (pat txt r : pystr) :
  strip_prefix pat txt = Some r <-> txt = pat ++ r.
Proof.
  revert txt. induction pat as [|p pat IH]; intros txt; simpl.
  - split; congruence.
  - destruct txt as [|c txt]; [split; discriminate|].
    destruct (N.eqb_spec p c) as [->|Hne].
    + rewrite IH. split; congruence.
    + split; [discriminate | congruence].
Qed.

Lemma strip_prefix_app (pat r : pystr) : strip_prefix pat (pat ++ r) = Some r.
Proof. now apply strip_prefix_Some. Qed.

(** A failed prefix test either ran out of text ([txt] is a proper prefix
    of [pat]) or met a mismatch, which no continuation repairs. *)
Lemma strip_prefix_None_cases (pat txt : pystr) :
  strip_prefix pat txt = None ->
  (exists w, w <> [] /\ pat = txt ++ w) \/
  (forall y, strip_prefix pat (txt ++ y) = None).
Proof.
  revert txt. induction pat as [|p pat IH]; intros txt; simpl.
  - discriminate.
  - destruct txt as [|c txt]; intros H.
    + left. exists (p :: pat). split; [discriminate | reflexivity].
    + destruct (N.eqb_spec p c) as [->|Hne].
      * destruct (IH _ H) as [[w [Hw ->]] | Hall].
        -- left. exists w. split; [assumption | reflexivity].
        -- right. intros y. simpl. rewrite N.eqb_refl. apply Hall.
      * right. intros y. simpl.
        destruct (N.eqb_spec p c); [contradiction | reflexivity].
Qed.

Lemma strip_prefix_None_longer (pat txt y : pystr) :
  strip_prefix pat txt = None -> length pat <= length txt ->
  strip_prefix pat (txt ++ y) = None.
Proof.
  intros H Hlen. destruct (strip_prefix_None_cases _ _ H) as [[w [Hw E]] | Hall].
  - subst pat. rewrite length_app in Hlen. destruct w; [congruence | simpl in Hlen; lia].
  - apply Hall.
Qed.

Lemma cut_hit (pat txt r : pystr) :
  strip_prefix pat txt = Some r -> cut pat txt = Some ([], r).
Proof. intros H. destruct txt; simpl; now rewrite H. Qed.

Lemma cut_miss (pat : pystr) (c : char) (t : pystr) :
  strip_prefix pat (c :: t) = None ->
  cut pat (c :: t) =
  match cut pat t with Some (a, b) => Some (c :: a, b) | None => None end.
Proof.
  intros H. change (cut pat (c :: t)) with
    (match strip_prefix pat (c :: t) with
     | Some rest => Some ([], rest)
     | None => match cut pat t with
               | Some (a, b) => Some (c :: a, b)
               | None => None
               end
     end).
  now rewrite H.
Qed.

Lemma cut_nil_txt (pat : pystr) : pat <> [] -> cut pat [] = None.
Proof. destruct pat; [congruence | reflexivity]. Qed.

Lemma cut_Some (pat txt a b : pystr) :
  cut pat txt = Some (a, b) -> txt = a ++ pat ++ b.
Proof.
  revert a b. induction txt as [|c t IH]; intros a b.
  - simpl. destruct (strip_prefix pat []) eqn:E; [|discriminate].
    intros [= <- <-]. now apply strip_prefix_Some in E.
  - destruct (strip_prefix pat (c :: t)) eqn:E.
    + rewrite (cut_hit _ _ _ E). intros [= <- <-]. now apply strip_prefix_Some in E.
    + rewrite (cut_miss _ _ _ E).
      destruct (cut pat t) as [[a' b']|] eqn:Ec; [|discriminate].
      intros [= <- <-]. simpl. f_equal. now apply IH.
Qed.

(** Every occurrence is found, at or before its position. *)
Lemma cut_complete (pat a b : pystr) :
  exists a' b', cut pat (a ++ pat ++ b) = Some (a', b') /\ length a' <= length a.
Proof.
  induction a as [|c a IH].
  - exists [], b. split; [|lia]. simpl. apply cut_hit, strip_prefix_app.
  - destruct IH as [a' [b' [Hc Hl]]]. simpl app.
    destruct (strip_prefix pat (c :: a ++ pat ++ b)) as [r|] eqn:E.
    + exists [], r. split; [now apply cut_hit | simpl; lia].
    + rewrite (cut_miss _ _ _ E), Hc.
      exists (c :: a'), b'. split; [reflexivity | simpl; lia].
Qed.

Lemma cut_None_no_occurrence (pat a b : pystr) : cut pat (a ++ pat ++ b) <> None.
Proof.
  destruct (cut_complete pat a b) as [a' [b' [H _]]]. congruence.
Qed.

(** Nothing is found in a piece of a text in which nothing is found. *)
Lemma cut_None_sub (pat x y z : pystr) :
  cut pat (x ++ y ++ z) = None -> cut pat y = None.
Proof.
  intros H. destruct (cut pat y) as [[a b]|] eqn:E; [|reflexivity].
  apply cut_Some in E. subst y. exfalso.
  apply (@cut_None_no_occurrence pat (x ++ a) (b ++ z)).
  rewrite <- H. f_equal. now rewrite <- !app_assoc.
Qed.

Lemma cut_None_prefix (pat x z : pystr) : cut pat (x ++ z) = None -> cut pat x = None.
Proof.
  intros H. apply (@cut_None_sub pat [] x z). exact H.
Qed.

Lemma cut_None_suffix (pat x z : pystr) : cut pat (x ++ z) = None -> cut pat z = None.
Proof.
  intros H. apply (@cut_None_sub pat x z []). now rewrite app_nil_r.
Qed.

Lemma strip_prefix_Some_app (pat x y r : pystr) :
  strip_prefix pat x = Some r -> strip_prefix pat (x ++ y) = Some (r ++ y).
Proof.
  intros H. apply strip_prefix_Some in H. subst x.
  rewrite <- app_assoc. apply strip_prefix_app.
Qed.

Lemma strip_prefix_None_shorter (pat x y : pystr) :
  strip_prefix pat (x ++ y) = None -> strip_prefix pat x = None.
Proof.
  intros H. destruct (strip_prefix pat x) eqn:E; [|reflexivity].
  apply strip_prefix_Some_app with (y := y) in E. congruence.
Qed.

Lemma cut_cons_inv (pat : pystr) (c : char) (t a b : pystr) :
  cut pat (c :: t) = Some (c :: a, b) ->
  strip_prefix pat (c :: t) = None /\ cut pat t = Some (a, b).
Proof.
  destruct (strip_prefix pat (c :: t)) eqn:E.
  - rewrite (cut_hit _ _ _ E). discriminate.
  - rewrite (cut_miss _ _ _ E).
    destruct (cut pat t) as [[a' b']|]; [|discriminate].
    intros [= <- <-]. auto.
Qed.

Lemma cut_cons_None (pat : pystr) (c : char) (t : pystr) :
  cut pat (c :: t) = None ->
  strip_prefix pat (c :: t) = None /\ cut pat t = None.
Proof.
  destruct (strip_prefix pat (c :: t)) eqn:E.
  - rewrite (cut_hit _ _ _ E). discriminate.
  - rewrite (cut_miss _ _ _ E).
    destruct (cut pat t) as [[a' b']|]; [discriminate | auto].
Qed.

(** What [cut] returns is the first occurrence. *)
Lemma cut_first (pat txt a b : pystr) :
  cut pat txt = Some (a, b) -> first_at pat a.
Proof.
  unfold first_at. revert a b. induction txt as [|c t IH]; intros a b.
  - simpl. destruct (strip_prefix pat []) eqn:E; [|discriminate].
    intros [= <- <-]. simpl. apply cut_hit.
    rewrite <- (app_nil_r pat) at 2. apply strip_prefix_app.
  - destruct (strip_prefix pat (c :: t)) eqn:E.
    + rewrite (cut_hit _ _ _ E). intros [= <- <-]. simpl. apply cut_hit.
      rewrite <- (app_nil_r pat) at 2. apply strip_prefix_app.
    + rewrite (cut_miss _ _ _ E).
      destruct (cut pat t) as [[a' b']|] eqn:Ec; [|discriminate].
      intros [= <- <-]. simpl app.
      assert (Hn : strip_prefix pat (c :: a' ++ pat) = None).
      { apply cut_Some in Ec. subst t.
        apply strip_prefix_None_shorter with (y := b').
        simpl. now rewrite <- app_assoc. }
      rewrite (cut_miss _ _ _ Hn), (IH _ _ eq_refl). reflexivity.
Qed.

(** The first occurrence stays the first whatever follows it. *)
Lemma first_at_extend (pat a b : pystr) :
  first_at pat a -> cut pat (a ++ pat ++ b) = Some (a, b).
Proof.
  unfold first_at. induction a as [|c a IH]; intros H.
  - simpl. apply cut_hit, strip_prefix_app.
  - simpl app in *. apply cut_cons_inv in H. destruct H as [Hn Hc].
    assert (Hn' : strip_prefix pat (c :: a ++ pat ++ b) = None).
    { replace (c :: a ++ pat ++ b) with ((c :: a ++ pat) ++ b)
        by (simpl; now rewrite <- app_assoc).
      apply strip_prefix_None_longer; [assumption|].
      simpl. rewrite length_app. lia. }
    rewrite (cut_miss _ _ _ Hn'), (IH Hc). reflexivity.
Qed.

(** Characters other than the first one of [pat] are skipped. *)
Lemma cut_skip (p : char) (pat x t : pystr) :
  Forall (fun n => n <> p) x ->
  cut (p :: pat) (x ++ t) =
  match cut (p :: pat) t with Some (a, b) => Some (x ++ a, b) | None => None end.
Proof.
  induction 1 as [|n x Hn Hx IH].
  - simpl app. destruct (cut (p :: pat) t) as [[a b]|]; reflexivity.
  - simpl app.
    assert (E : strip_prefix (p :: pat) (n :: x ++ t) = None).
    { simpl. destruct (N.eqb_spec p n); [congruence | reflexivity]. }
    rewrite (cut_miss _ _ _ E), IH.
    destruct (cut (p :: pat) t) as [[a b]|]; reflexivity.
Qed.

Lemma strip_prefix_None_foreign (pat c x : pystr) :
  strip_prefix pat c = None ->
  Forall (fun n => ~ In n pat) x ->
  strip_prefix pat (c ++ x) = None.
Proof.
  revert c. induction pat as [|p pat IH]; intros c H Hx.
  - discriminate.
  - destruct c as [|c0 c].
    + simpl. destruct x as [|n x]; [reflexivity|].
      inversion Hx as [|? ? Hn _]; subst.
      destruct (N.eqb_spec p n); [|reflexivity].
      subst. exfalso. apply Hn. now left.
    + simpl in *. destruct (N.eqb p c0); [|reflexivity].
      apply IH; [assumption|].
      eapply Forall_impl; [|exact Hx]. simpl. intros a Ha Hin. apply Ha. now right.
Qed.

(** Appending characters that [pat] does not contain creates no occurrence. *)
Lemma cut_None_foreign (pat c x : pystr) :
  pat <> [] ->
  cut pat c = None ->
  Forall (fun n => ~ In n pat) x ->
  cut pat (c ++ x) = None.
Proof.
  intros Hp. induction c as [|c0 c IH]; intros H Hx.
  - simpl. destruct pat as [|p pat]; [congruence|].
    rewrite <- (app_nil_r x), cut_skip.
    + reflexivity.
    + eapply Forall_impl; [|exact Hx]. simpl. intros a Ha ->. apply Ha. now left.
  - apply cut_cons_None in H. destruct H as [Hn Hc]. simpl app.
    assert (E : strip_prefix pat (c0 :: c ++ x) = None)
      by (apply (strip_prefix_None_foreign pat (c0 :: c) x); assumption).
    rewrite (cut_miss _ _ _ E), (IH Hc Hx). reflexivity.
Qed.

Lemma unbordered_prefix (pat q w : pystr) :
  unbordered pat = true -> q <> [] -> w <> [] -> pat = q ++ w ->
  strip_prefix pat (q ++ pat) = None.
Proof.
  unfold unbordered. rewrite forallb_forall. intros Hu Hq Hw E.
  specialize (Hu (length q)).
  assert (Hin : In (length q) (seq 1 (length pat - 1))).
  { apply in_seq. subst pat. rewrite length_app.
    destruct q; [congruence|]. destruct w; [congruence|]. simpl. lia. }
  specialize (Hu Hin).
  assert (Hf : firstn (length q) pat = q).
  { subst pat. rewrite firstn_app, Nat.sub_diag, firstn_all. simpl.
    apply app_nil_r. }
  rewrite Hf in Hu.
  destruct (strip_prefix pat (q ++ pat)); [discriminate | reflexivity].
Qed.

(** With an unbordered pattern, an occurrence appended to a text that has
    none is the first occurrence of the result. *)
Lemma first_at_unbordered (pat q : pystr) :
  unbordered pat = true -> cut pat q = None -> first_at pat q.
Proof.
  unfold first_at. intros Hu. induction q as [|c q IH]; intros H.
  - simpl. apply cut_hit. rewrite <- (app_nil_r pat) at 2. apply strip_prefix_app.
  - apply cut_cons_None in H. destruct H as [Hn Hc]. simpl app.
    assert (E : strip_prefix pat (c :: q ++ pat) = None).
    { destruct (strip_prefix_None_cases _ _ Hn) as [[w [Hw Ew]] | Hall].
      - apply (unbordered_prefix pat (c :: q) w); [assumption | discriminate | assumption | assumption].
      - apply (Hall pat). }
    rewrite (cut_miss _ _ _ E), (IH Hc). reflexivity.
Qed.

(** ** The region pattern *)

Lemma START_nonempty : START <> [].
Proof. discriminate. Qed.

Lemma END_nonempty : END <> [].
Proof. discriminate. Qed.

Lemma START_unbordered : unbordered START = true.
Proof. vm_compute. reflexivity. Qed.

Lemma END_unbordered : unbordered END = true.
Proof. vm_compute. reflexivity. Qed.

Lemma strip_prefix_START_nil : strip_prefix START [] = None.
Proof. reflexivity. Qed.

Lemma cut_START_nil : cut START [] = None.
Proof. reflexivity. Qed.

Lemma START_length : length START = 25.
Proof. reflexivity. Qed.

Lemma END_length : length END = 23.
Proof. reflexivity. Qed.

Lemma cut_START_skip (x t : pystr) :
  Forall (fun n => n <> 60%N) x ->
  cut START (x ++ t) =
  match cut START t with Some (a, b) => Some (x ++ a, b) | None => None end.
Proof. intros H. exact (cut_skip 60%N (tl START) x t H). Qed.

Lemma newlines_foreign_to_START : Forall (fun n => ~ In n START) (nl ++ nl).
Proof.
  assert (H : forallb (fun c => negb (c =? 10)%N) START = true) by reflexivity.
  rewrite forallb_forall in H.
  repeat constructor; intros Hin; apply H in Hin; discriminate.
Qed.

Lemma marker_nonempty : marker <> [].
Proof. discriminate. Qed.

Lemma separator_marker_no_lt : Forall (fun n => n <> 60%N) (separator ++ marker).
Proof.
  apply Forall_forall. intros n Hin.
  assert (H : forallb (fun c => negb (c =? 60)%N) (separator ++ marker) = true)
    by reflexivity.
  rewrite forallb_forall in H. apply H in Hin.
  intros ->. discriminate.
Qed.

#[local] Opaque START END marker separator.

Lemma re_search_eq (txt : pystr) :
  re_search txt =
  match match_here txt with
  | Some (m, rest) => Some ([], m, rest)
  | None =>
      match txt with
      | [] => None
      | c :: t =>
          match re_search t with
          | Some (pre, m, rest) => Some (c :: pre, m, rest)
          | None => None
          end
      end
  end.
Proof. destruct txt; reflexivity. Qed.

Lemma suffix_of_longer (x y r r' : pystr) :
  x ++ r' = y ++ r -> length r' <= length r -> exists d, r = d ++ r'.
Proof.
  intros E Hl. apply app_eq_app in E. destruct E as [l [[-> ->] | [-> ->]]].
  - exists l. reflexivity.
  - rewrite length_app in Hl. destruct l; [|simpl in Hl; lia].
    exists []. reflexivity.
Qed.

(** Searching position by position is the same as taking the first start
    sentinel and then the first end sentinel after it: when the first start
    sentinel has no end sentinel after it, no later one has. *)
Lemma re_search_cut (txt : pystr) :
  re_search txt =
  match cut START txt with
  | Some (p, r) =>
      match cut END r with
      | Some (mid, rest) => Some (p, START ++ mid ++ END, rest)
      | None => None
      end
  | None => None
  end.
Proof.
  induction txt as [|c t IH].
  - rewrite re_search_eq. unfold match_here.
    now rewrite strip_prefix_START_nil, cut_START_nil.
  - rewrite re_search_eq. unfold match_here.
    destruct (strip_prefix START (c :: t)) as [r|] eqn:E.
    + rewrite (cut_hit _ _ _ E).
      destruct (cut END r) as [[mid rest]|] eqn:Er; [reflexivity|].
      rewrite IH. destruct (cut START t) as [[p' r']|] eqn:Et; [|reflexivity].
      apply cut_Some in Et. apply strip_prefix_Some in E.
      assert (Hs : exists d, r = d ++ r').
      { apply (suffix_of_longer (c :: p' ++ START) START).
        - rewrite <- E, Et. simpl. now rewrite <- app_assoc.
        - assert (Hl : length (c :: t) = length (START ++ r)) by now rewrite E.
          rewrite Et in Hl.
          change (length (c :: p' ++ START ++ r'))
            with (S (length (p' ++ START ++ r'))) in Hl.
          rewrite !length_app in Hl. lia. }
      destruct Hs as [d ->].
      rewrite (cut_None_suffix _ _ _ Er). reflexivity.
    + rewrite (cut_miss _ _ _ E), IH.
      destruct (cut START t) as [[p' r']|]; [|reflexivity].
      destruct (cut END r') as [[mid rest]|]; reflexivity.
Qed.

Lemma re_search_Some (txt pre m rest : pystr) :
  re_search txt = Some (pre, m, rest) ->
  exists mid, m = START ++ mid ++ END /\ txt = pre ++ m ++ rest /\
              first_at START pre /\ first_at END mid.
Proof.
  rewrite re_search_cut.
  destruct (cut START txt) as [[p r]|] eqn:E; [|discriminate].
  destruct (cut END r) as [[mid rest']|] eqn:Er; [|discriminate].
  intros [= <- <- <-]. exists mid.
  split; [reflexivity|]. split.
  - apply cut_Some in E. apply cut_Some in Er. subst.
    now rewrite <- !app_assoc.
  - split; [eapply cut_first; eassumption | eapply cut_first; eassumption].
Qed.

(** The lazy match: from the first start sentinel to the first end sentinel
    that follows it. *)
Lemma re_search_region (p mid rest : pystr) :
  first_at START p -> first_at END mid ->
  re_search (p ++ START ++ mid ++ END ++ rest) = Some (p, START ++ mid ++ END, rest).
Proof.
  intros Hp Hm. rewrite re_search_cut.
  rewrite (first_at_extend _ _ (mid ++ END ++ rest) Hp).
  rewrite (first_at_extend _ _ rest Hm). reflexivity.
Qed.

Lemma re_search_None_no_start (txt : pystr) :
  cut START txt = None -> re_search txt = None.
Proof. intros H. rewrite re_search_cut, H. reflexivity. Qed.

(** A text that contains a start sentinel and, later, an end sentinel has
    a match. *)
Lemma re_search_complete (a b c : pystr) :
  re_search (a ++ START ++ b ++ END ++ c) <> None.
Proof.
  rewrite re_search_cut.
  destruct (cut_complete START a (b ++ END ++ c)) as [a' [r [Hc Hl]]].
  rewrite Hc. pose proof (cut_Some _ _ _ _ Hc) as E.
  assert (Hs : exists d, r = d ++ b ++ END ++ c).
  { apply (suffix_of_longer (a ++ START) (a' ++ START)).
    - rewrite <- !app_assoc. exact E.
    - assert (Hlen : length (a ++ START ++ b ++ END ++ c)
                     = length (a' ++ START ++ r)) by now rewrite <- E.
      rewrite !length_app in Hlen. rewrite !length_app. lia. }
  destruct Hs as [d ->].
  destruct (cut END (d ++ b ++ END ++ c)) as [[mid rest]|] eqn:Ee; [discriminate|].
  exfalso. apply (cut_None_no_occurrence END (d ++ b) c).
  now rewrite <- app_assoc.
Qed.

Lemma re_search_shorter (txt pre m rest : pystr) :
  re_search txt = Some (pre, m, rest) -> length rest < length txt.
Proof.
  intros H. apply re_search_Some in H. destruct H as [mid [-> [-> _]]].
  rewrite !length_app, START_length. lia.
Qed.

(** ** [re.sub] *)

Lemma sub_loop_fuel (tpl : template) (fuel fuel' : nat) (txt : pystr) :
  length txt <= fuel -> length txt <= fuel' ->
  sub_loop fuel tpl txt = sub_loop fuel' tpl txt.
Proof.
  revert fuel' txt. induction fuel as [|f IH]; intros fuel' txt H H'.
  - destruct txt; [|simpl in H; lia]. destruct fuel'; reflexivity.
  - destruct fuel' as [|f'].
    + destruct txt; [reflexivity | simpl in H'; lia].
    + simpl. destruct (re_search txt) as [[[pre m] rest]|] eqn:E; [|reflexivity].
      apply re_search_shorter in E. do 2 f_equal. apply IH; lia.
Qed.

Lemma sub_all_eq (tpl : template) (txt : pystr) :
  sub_all tpl txt =
  match re_search txt with
  | None => txt
  | Some (pre, m, rest) => pre ++ expand tpl m ++ sub_all tpl rest
  end.
Proof.
  unfold sub_all. destruct txt as [|c t]; [reflexivity|].
  cbn [length sub_loop].
  destruct (re_search (c :: t)) as [[[pre m] rest]|] eqn:E; [|reflexivity].
  apply re_search_shorter in E. simpl in E. do 2 f_equal.
  apply sub_loop_fuel; lia.
Qed.

Lemma tcons_Some (i : tpl_item) (r : option template) (t : template) :
  r = Some t -> tcons i r = Some (i :: t).
Proof. now intros ->. Qed.

(** A replacement without a backslash stands for itself. *)
Lemma parse_template_plain (fuel : nat) (s : pystr) :
  ~ In backslash s -> length s <= fuel ->
  parse_template_from fuel s = Some (map TChar s).
Proof.
  revert s. induction fuel as [|f IH]; intros s Hs Hl.
  - destruct s; [reflexivity | simpl in Hl; lia].
  - destruct s as [|c t]; [reflexivity|].
    cbn [parse_template_from].
    destruct (N.eqb_spec c backslash) as [->|Hne].
    + exfalso. apply Hs. now left.
    + cbn [negb map]. apply tcons_Some. apply IH.
      * intros Hin. apply Hs. now right.
      * simpl in Hl. lia.
Qed.

Lemma expand_plain (s m : pystr) : expand (map TChar s) m = s.
Proof.
  unfold expand. induction s as [|c s IH]; [reflexivity|].
  simpl. now rewrite IH.
Qed.

Lemma re_sub_plain (s txt : pystr) :
  ~ In backslash s -> re_sub s txt = Ok (sub_all (map TChar s) txt).
Proof.
  intros Hs. unfold re_sub, parse_template.
  rewrite (parse_template_plain _ _ Hs (le_n _)). reflexivity.
Qed.

Lemma sub_all_region (s p mid rest : pystr) :
  first_at START p -> first_at END mid ->
  sub_all (map TChar s) (p ++ START ++ mid ++ END ++ rest)
  = p ++ s ++ sub_all (map TChar s) rest.
Proof.
  intros Hp Hm. rewrite sub_all_eq, (re_search_region _ _ rest Hp Hm).
  now rewrite expand_plain.
Qed.

Lemma sub_all_no_match (tpl : template) (txt : pystr) :
  re_search txt = None -> sub_all tpl txt = txt.
Proof. intros H. rewrite sub_all_eq, H. reflexivity. Qed.

(** ** [str.replace] *)

Lemma cut_shorter (old txt a b : pystr) :
  old <> [] -> cut old txt = Some (a, b) -> length b < length txt.
Proof.
  intros Ho H. apply cut_Some in H. subst txt. rewrite !length_app.
  destruct old; [congruence | simpl; lia].
Qed.

Lemma replace_loop_fuel (old new : pystr) (fuel fuel' : nat) (txt : pystr) :
  old <> [] -> length txt <= fuel -> length txt <= fuel' ->
  replace_loop fuel old new txt = replace_loop fuel' old new txt.
Proof.
  intros Ho. revert fuel' txt. induction fuel as [|f IH]; intros fuel' txt H H'.
  - destruct txt; [|simpl in H; lia]. destruct fuel'; [reflexivity|].
    cbn [replace_loop length]. now rewrite (cut_nil_txt _ Ho).
  - destruct fuel' as [|f'].
    + destruct txt; [|simpl in H'; lia]. cbn [replace_loop length]. now rewrite (cut_nil_txt _ Ho).
    + cbn [replace_loop]. destruct (cut old txt) as [[a b]|] eqn:E; [|reflexivity].
      apply (cut_shorter _ _ _ _ Ho) in E. do 2 f_equal. apply IH; lia.
Qed.

Lemma str_replace_eq (old new txt : pystr) :
  old <> [] ->
  str_replace old new txt =
  match cut old txt with
  | None => txt
  | Some (a, b) => a ++ new ++ str_replace old new b
  end.
Proof.
  intros Ho. unfold str_replace. destruct txt as [|c t].
  - cbn [replace_loop length]. now rewrite (cut_nil_txt _ Ho).
  - cbn [length replace_loop].
    destruct (cut old (c :: t)) as [[a b]|] eqn:E; [|reflexivity].
    apply (cut_shorter _ _ _ _ Ho) in E. simpl in E. do 2 f_equal.
    apply replace_loop_fuel; [assumption | lia | lia].
Qed.

Lemma str_replace_first (old new a b : pystr) :
  old <> [] -> first_at old a ->
  str_replace old new (a ++ old ++ b) = a ++ new ++ str_replace old new b.
Proof.
  intros Ho Ha. rewrite (str_replace_eq _ _ _ Ho), (first_at_extend _ _ b Ha).
  reflexivity.
Qed.

Lemma str_replace_absent (old new txt : pystr) :
  old <> [] -> contains old txt = false -> str_replace old new txt = txt.
Proof.
  intros Ho H. rewrite (str_replace_eq _ _ _ Ho). unfold contains in H.
  destruct (cut old txt) as [[a b]|]; [discriminate | reflexivity].
Qed.

(** ** The splice step *)

Lemma splice_update (s content : pystr) :
  re_search content <> None ->
  splice s content =
  match re_sub s content with
  | Ok updated => Ok (updated, Updated)
  | Raise e => Raise e
  | OutOfFuel => OutOfFuel
  end.
Proof.
  intros H. unfold splice. destruct (re_search content); [reflexivity | congruence].
Qed.

Lemma splice_update_plain (s content : pystr) :
  ~ In backslash s -> re_search content <> None ->
  splice s content = Ok (sub_all (map TChar s) content, Updated).
Proof.
  intros Hs H. rewrite (splice_update _ _ H), (re_sub_plain _ _ Hs). reflexivity.
Qed.

(** Replacing regions by a section that is itself one region is idempotent. *)
Lemma sub_all_idem (body c : pystr) :
  first_at END body ->
  let s := START ++ body ++ END in
  sub_all (map TChar s) (sub_all (map TChar s) c) = sub_all (map TChar s) c.
Proof.
  intros Hb s. remember (length c) as n eqn:Hn. revert c Hn.
  induction n as [n IH] using lt_wf_ind. intros c Hn.
  rewrite (sub_all_eq _ c).
  destruct (re_search c) as [[[pre m] rest]|] eqn:E.
  - rewrite expand_plain.
    pose proof (re_search_shorter _ _ _ _ E) as Hlen.
    apply re_search_Some in E. destruct E as [mid [-> [-> [Hp _]]]].
    replace (pre ++ s ++ sub_all (map TChar s) rest)
      with (pre ++ START ++ body ++ END ++ sub_all (map TChar s) rest)
      by (unfold s; now rewrite <- !app_assoc).
    rewrite (sub_all_region s pre body _ Hp Hb).
    rewrite (IH (length rest)); [| subst n; exact Hlen | reflexivity].
    unfold s. now rewrite <- !app_assoc.
  - now apply sub_all_no_match.
Qed.

(** No region appears when a section is inserted before the markers of a
    text that has no start sentinel, beyond the inserted sections. *)
Lemma sub_all_inserted (body t x : pystr) :
  first_at END body ->
  let s := START ++ body ++ END in
  cut START t = None ->
  Forall (fun n => n <> 60%N) x ->
  sub_all (map TChar s) (x ++ str_replace marker (s ++ separator ++ marker) t)
  = x ++ str_replace marker (s ++ separator ++ marker) t.
Proof.
  intros Hb s. remember (length t) as n eqn:Hn. revert t x Hn.
  induction n as [n IH] using lt_wf_ind. intros t x Hn Ht Hx.
  rewrite (str_replace_eq _ _ _ marker_nonempty).
  destruct (cut marker t) as [[a b]|] eqn:E.
  - pose proof (cut_shorter _ _ _ _ marker_nonempty E) as Hlen.
    apply cut_Some in E. subst t. rewrite <- Hn in Hlen.
    assert (Ha : cut START (x ++ a) = None).
    { rewrite (cut_START_skip _ _ Hx), (cut_None_prefix _ _ _ Ht). reflexivity. }
    assert (Hb' : cut START b = None).
    { apply (cut_None_suffix START (a ++ marker)). now rewrite <- app_assoc. }
    replace (x ++ a ++ (s ++ separator ++ marker)
               ++ str_replace marker (s ++ separator ++ marker) b)
      with ((x ++ a) ++ START ++ body ++ END
              ++ ((separator ++ marker)
                    ++ str_replace marker (s ++ separator ++ marker) b))
      by (unfold s; now rewrite <- !app_assoc).
    rewrite (sub_all_region s (x ++ a) body _
               (first_at_unbordered _ _ START_unbordered Ha) Hb).
    rewrite (IH (length b) Hlen b (separator ++ marker) eq_refl Hb'
               separator_marker_no_lt).
    unfold s. now rewrite <- !app_assoc.
  - apply sub_all_no_match, re_search_None_no_start.
    rewrite (cut_START_skip _ _ Hx), Ht. reflexivity.
Qed.

(** ** Rendered sections *)

Lemma build_section_shape (languages : list pystr) :
  build_tech_stack_section languages = START ++ section_body languages ++ END.
Proof.
  unfold build_tech_stack_section, section_body. cbv zeta.
  now rewrite <- !app_assoc.
Qed.

Lemma forallb_join (P : char -> bool) (sep : pystr) (parts : list pystr) :
  forallb P sep = true ->
  forallb (forallb P) parts = true ->
  forallb P (join sep parts) = true.
Proof.
  intros Hsep. induction parts as [|p parts IH]; intros H; [reflexivity|].
  cbn [forallb] in H. apply andb_true_iff in H. destruct H as [Hp Hr].
  destruct parts as [|p' parts]; [exact Hp|].
  change (join sep (p :: p' :: parts)) with (p ++ sep ++ join sep (p' :: parts)).
  rewrite !forallb_app, Hp, Hsep, (IH Hr). reflexivity.
Qed.

Lemma badges_forallb (P : char -> bool) (languages : list pystr) :
  forallb (fun kv => forallb P (snd kv)) BADGE_MAP = true ->
  forallb (forallb P) (map badge_of languages) = true.
Proof.
  intros H. induction languages as [|l ls IH]; [reflexivity|].
  cbn [map forallb]. rewrite IH, andb_true_r.
  unfold badge_of. generalize BADGE_MAP H. clear.
  induction d as [|[k v] d IHd]; intros H; [reflexivity|].
  cbn [forallb snd] in H. apply andb_true_iff in H. destruct H as [Hv Hd].
  cbn [dict_get]. destruct (pystr_eqb l k); [exact Hv | now apply IHd].
Qed.

Lemma forallb_filter {A : Type} (P f : A -> bool) (l : list A) :
  forallb P l = true -> forallb P (filter f l) = true.
Proof.
  induction l as [|x l IH]; [reflexivity|]. cbn [forallb filter].
  intros H. apply andb_true_iff in H. destruct H as [Hx Hl].
  destruct (f x); [cbn [forallb]; now rewrite Hx, IH | now apply IH].
Qed.

Lemma forallb_weaken {A : Type} (P Q : A -> bool) (l : list A) :
  (forall x, P x = true -> Q x = true) -> forallb P l = true -> forallb Q l = true.
Proof.
  intros HPQ. rewrite !forallb_forall. auto.
Qed.

Lemma not_lt_Forall (s : pystr) :
  forallb not_lt s = true -> Forall (fun n => n <> 60%N) s.
Proof.
  rewrite forallb_forall, Forall_forall. intros H n Hin ->.
  specialize (H _ Hin). discriminate.
Qed.

Lemma no_backslash_In (s : pystr) : no_backslash s = true -> ~ In backslash s.
Proof.
  unfold no_backslash. rewrite forallb_forall. intros H Hin.
  specialize (H _ Hin). discriminate.
Qed.

(** A section rendered from clean language names has no backslash. *)
Lemma build_section_no_backslash (languages : list pystr) :
  forallb clean_name languages = true ->
  no_backslash (build_tech_stack_section languages) = true.
Proof.
  intros Hc. unfold no_backslash, build_tech_stack_section. cbv zeta.
  set (P := not_backslash).
  assert (Hb : forallb P (join nl (map badge_of (filter in_badge_map languages))) = true).
  { apply forallb_join; [reflexivity|]. apply badges_forallb. vm_compute. reflexivity. }
  assert (Hu : forallb (forallb P) (filter (fun l => negb (in_badge_map l)) languages) = true).
  { apply forallb_filter. revert Hc. apply forallb_weaken.
    intros l. unfold clean_name. apply forallb_weaken.
    intros c Hcl. apply andb_true_iff in Hcl. apply Hcl. }
  rewrite !forallb_app, Hb.
  destruct (filter (fun l => negb (in_badge_map l)) languages) as [|u us] eqn:Eu.
  - vm_compute. reflexivity.
  - rewrite !forallb_app, (forallb_join P (lit ", ") (u :: us) eq_refl Hu).
    vm_compute. reflexivity.
Qed.

Lemma cut_END_skip (x t : pystr) :
  Forall (fun n => n <> 60%N) x ->
  cut END (x ++ t) =
  match cut END t with Some (a, b) => Some (x ++ a, b) | None => None end.
Proof. intros H. exact (cut_skip 60%N (tl END) x t H). Qed.

Lemma cut_END_END : cut END END = Some ([], []).
Proof. vm_compute. reflexivity. Qed.

Lemma first_at_END_clean (x : pystr) :
  forallb not_lt x = true -> first_at END x.
Proof.
  intros H. unfold first_at.
  rewrite (cut_END_skip _ _ (not_lt_Forall _ H)), cut_END_END.
  now rewrite app_nil_r.
Qed.

(** In a section rendered from clean language names, the end sentinel occurs
    at the end only. *)
Lemma section_body_first_END (languages : list pystr) :
  forallb clean_name languages = true ->
  first_at END (section_body languages).
Proof.
  intros Hc. unfold section_body. cbv zeta.
  set (P := not_lt).
  assert (Hb : forallb P (join nl (map badge_of (filter in_badge_map languages))) = true).
  { apply forallb_join; [reflexivity|]. apply badges_forallb. vm_compute. reflexivity. }
  assert (Hu : forallb (forallb P) (filter (fun l => negb (in_badge_map l)) languages) = true).
  { apply forallb_filter. revert Hc. apply forallb_weaken.
    intros l. unfold clean_name. apply forallb_weaken.
    intros c Hcl. apply andb_true_iff in Hcl. apply Hcl. }
  destruct (filter (fun l => negb (in_badge_map l)) languages) as [|u us] eqn:Eu.
  - apply first_at_END_clean. fold P. rewrite !forallb_app, Hb. vm_compute. reflexivity.
  - set (names := join (lit ", ") (u :: us)).
    assert (Hn : forallb P names = true) by (apply forallb_join; [reflexivity | exact Hu]).
    set (head := nl ++ lit "## " ++ [128736%N; 65039%N] ++ lit " Tech Stack" ++ nl
                   ++ lit "> Auto-detected from my repositories" ++ nl ++ nl
                   ++ join nl (map badge_of (filter in_badge_map languages)) ++ nl).
    set (tail := lit "!-- Also detected (no badge yet): " ++ names ++ lit " -->"
                   ++ nl ++ nl).
    assert (Hh : forallb P head = true).
    { unfold head. rewrite !forallb_app, Hb. vm_compute. reflexivity. }
    assert (Ht : forallb P tail = true).
    { unfold tail. rewrite !forallb_app, Hn. vm_compute. reflexivity. }
    assert (E : nl ++ lit "## " ++ [128736%N; 65039%N] ++ lit " Tech Stack" ++ nl
                  ++ lit "> Auto-detected from my repositories" ++ nl ++ nl
                  ++ join nl (map badge_of (filter in_badge_map languages))
                  ++ (nl ++ lit "<!-- Also detected (no badge yet): "
                         ++ names ++ lit " -->") ++ nl ++ nl
                = head ++ 60%N :: tail).
    { unfold head, tail. rewrite <- !app_assoc. reflexivity. }
    rewrite E. unfold first_at. rewrite <- app_assoc.
    rewrite (cut_END_skip _ _ (not_lt_Forall _ Hh)).
    assert (Hm : strip_prefix END ((60%N :: tail) ++ END) = None).
    { unfold tail. vm_compute. reflexivity. }
    change ((60%N :: tail) ++ END) with (60%N :: tail ++ END) in *.
    rewrite (cut_miss _ _ _ Hm).
    rewrite (cut_END_skip _ _ (not_lt_Forall _ Ht)), cut_END_END.
    now rewrite app_nil_r.
Qed.

(** ** Claims about the splice step *)

(** C4, counterexample. The claim has the region run greedily from the first
    start sentinel to the last end sentinel. On a document with one start
    sentinel and two end sentinels the code replaces up to the first end
    sentinel only and keeps what follows it, while the greedy reading
    would leave nothing but the section. *)
Lemma C4_greedy_counterexample :
  splice python_section doc_two_ends
    = Ok (python_section ++ lit "b" ++ END, Updated) /\
  splice_greedy python_section doc_two_ends = Some python_section /\
  python_section ++ lit "b" ++ END <> python_section.
Proof.
  split; [vm_compute; reflexivity|]. split; [vm_compute; reflexivity|].
  intros H. apply (f_equal (@length N)) in H. vm_compute in H. discriminate.
Qed.

(** C4, amended. When the document has a start sentinel, first occurring
    after [p], and [mid] is the text up to the first end sentinel after it,
    the splice step replaces exactly that region (a lazy match) by the
    section (one without backslashes), keeps [p], and treats the text after
    the region in the same way: it is kept as it is when it holds no further
    region. *)
Theorem splice_replaces_lazy_region (s p mid rest : pystr) :
  no_backslash s = true ->
  first_at START p ->
  first_at END mid ->
  exists rest',
    re_sub s rest = Ok rest' /\
    splice s (p ++ START ++ mid ++ END ++ rest) = Ok (p ++ s ++ rest', Updated) /\
    (re_search rest = None -> rest' = rest).
Proof.
  intros Hs Hp Hm. apply no_backslash_In in Hs.
  exists (sub_all (map TChar s) rest). split; [now apply re_sub_plain|]. split.
  - rewrite (splice_update_plain _ _ Hs).
    + now rewrite (sub_all_region s p mid rest Hp Hm).
    + rewrite (re_search_region _ _ rest Hp Hm). discriminate.
  - apply sub_all_no_match.
Qed.

Lemma splice_replaces_lazy_region_witness :
  no_backslash python_section = true /\
  first_at START (lit "# Hi" ++ nl) /\
  first_at END (lit "old") /\
  exists rest',
    re_sub python_section (nl ++ lit "bye") = Ok rest' /\
    splice python_section
      ((lit "# Hi" ++ nl) ++ START ++ lit "old" ++ END ++ nl ++ lit "bye")
    = Ok ((lit "# Hi" ++ nl) ++ python_section ++ rest', Updated) /\
    (re_search (nl ++ lit "bye") = None -> rest' = nl ++ lit "bye").
Proof.
  assert (H1 : no_backslash python_section = true) by (vm_compute; reflexivity).
  assert (H2 : first_at START (lit "# Hi" ++ nl)) by (vm_compute; reflexivity).
  assert (H3 : first_at END (lit "old")) by (vm_compute; reflexivity).
  split; [exact H1|]. split; [exact H2|]. split; [exact H3|].
  exact (splice_replaces_lazy_region python_section (lit "# Hi" ++ nl) (lit "old")
           (nl ++ lit "bye") H1 H2 H3).
Defined.

(** C9, counterexample. The claim has the section inserted before the marker
    and the rest of the document left unchanged. When the marker occurs
    twice the code inserts the section before both occurrences. *)
Lemma C9_two_markers_counterexample :
  re_search doc_two_markers = None /\
  contains marker doc_two_markers = true /\
  splice python_section doc_two_markers
    = Ok (python_section ++ separator ++ marker ++ nl
            ++ python_section ++ separator ++ marker, Inserted) /\
  insert_before_marker python_section doc_two_markers
    = Some (python_section ++ separator ++ marker ++ nl ++ marker) /\
  python_section ++ separator ++ marker ++ nl
    ++ python_section ++ separator ++ marker
  <> python_section ++ separator ++ marker ++ nl ++ marker.
Proof.
  split; [vm_compute; reflexivity|]. split; [vm_compute; reflexivity|].
  split; [vm_compute; reflexivity|]. split; [vm_compute; reflexivity|].
  intros H. apply (f_equal (@length N)) in H. vm_compute in H. discriminate.
Qed.

(** C9, amended. For a document without a sentinel-delimited region whose
    first marker heading comes after [a], the splice step puts the section,
    a horizontal-rule separator and a blank-line gap before that marker and
    before every later occurrence of the marker; all other text is
    unchanged, so that with a single marker the rest of the document is
    unchanged. *)
Theorem splice_inserts_before_each_marker (s a b : pystr) :
  re_search (a ++ marker ++ b) = None ->
  first_at marker a ->
  splice s (a ++ marker ++ b)
    = Ok (a ++ s ++ separator ++ marker
            ++ str_replace marker (s ++ separator ++ marker) b, Inserted) /\
  (contains marker b = false ->
   str_replace marker (s ++ separator ++ marker) b = b).
Proof.
  intros Hr Ha. split.
  - unfold splice. rewrite Hr. unfold contains.
    rewrite (first_at_extend _ _ b Ha).
    rewrite (str_replace_first _ _ _ b marker_nonempty Ha).
    now rewrite <- !app_assoc.
  - apply str_replace_absent, marker_nonempty.
Qed.

Lemma splice_inserts_before_each_marker_witness :
  re_search ((lit "# Hi" ++ nl) ++ marker ++ nl ++ lit "stats") = None /\
  first_at marker (lit "# Hi" ++ nl) /\
  splice python_section ((lit "# Hi" ++ nl) ++ marker ++ nl ++ lit "stats")
    = Ok ((lit "# Hi" ++ nl) ++ python_section ++ separator ++ marker
            ++ str_replace marker (python_section ++ separator ++ marker)
                 (nl ++ lit "stats"), Inserted) /\
  (contains marker (nl ++ lit "stats") = false ->
   str_replace marker (python_section ++ separator ++ marker) (nl ++ lit "stats")
   = nl ++ lit "stats").
Proof.
  assert (H1 : re_search ((lit "# Hi" ++ nl) ++ marker ++ nl ++ lit "stats") = None)
    by (vm_compute; reflexivity).
  assert (H2 : first_at marker (lit "# Hi" ++ nl)) by (vm_compute; reflexivity).
  split; [exact H1|]. split; [exact H2|].
  exact (splice_inserts_before_each_marker python_section (lit "# Hi" ++ nl)
           (nl ++ lit "stats") H1 H2).
Defined.

(** C7. A document with neither a region nor the marker heading gets the
    rendered section appended after a blank line; on the result the region
    pattern matches, so a second run is the replace-existing-region branch
    ([re.sub] on the whole text, reported as an update), and it returns
    when the language names are clean. *)
Theorem append_then_update (languages : list pystr) (c : pystr) :
  re_search c = None ->
  contains marker c = false ->
  let s := build_tech_stack_section languages in
  let u := c ++ nl ++ nl ++ s in
  splice s c = Ok (u, Appended) /\
  re_search u <> None /\
  splice s u = match re_sub s u with
               | Ok r => Ok (r, Updated)
               | Raise e => Raise e
               | OutOfFuel => OutOfFuel
               end /\
  (forallb clean_name languages = true -> exists r, splice s u = Ok (r, Updated)).
Proof.
  intros Hr Hm s u.
  assert (Hu : re_search u <> None).
  { unfold u, s. rewrite build_section_shape.
    replace (c ++ nl ++ nl ++ START ++ section_body languages ++ END)
      with ((c ++ nl ++ nl) ++ START ++ section_body languages ++ END ++ [])
      by (now rewrite <- !app_assoc, app_nil_r).
    apply re_search_complete. }
  split; [|split; [exact Hu | split]].
  - unfold splice. now rewrite Hr, Hm.
  - now apply splice_update.
  - intros Hc. exists (sub_all (map TChar s) u).
    apply splice_update_plain; [|exact Hu].
    apply no_backslash_In, build_section_no_backslash, Hc.
Qed.

Lemma append_then_update_witness :
  re_search doc_plain = None /\
  contains marker doc_plain = false /\
  let s := build_tech_stack_section [lit "Python"; lit "Zig"] in
  let u := doc_plain ++ nl ++ nl ++ s in
  splice s doc_plain = Ok (u, Appended) /\
  re_search u <> None /\
  splice s u = match re_sub s u with
               | Ok r => Ok (r, Updated)
               | Raise e => Raise e
               | OutOfFuel => OutOfFuel
               end /\
  (forallb clean_name [lit "Python"; lit "Zig"] = true ->
   exists r, splice s u = Ok (r, Updated)).
Proof.
  assert (H1 : re_search doc_plain = None) by (vm_compute; reflexivity).
  assert (H2 : contains marker doc_plain = false) by (vm_compute; reflexivity).
  split; [exact H1|]. split; [exact H2|].
  exact (append_then_update [lit "Python"; lit "Zig"] doc_plain H1 H2).
Defined.

(** C6, counterexample. On a document that holds a start sentinel and no end
    sentinel the first run appends the section; the second run then matches
    from the old start sentinel to the end of the appended section and
    replaces all of it, so the document changes again. *)
Lemma C6_dangling_start_counterexample :
  splice python_section doc_dangling_start
    = Ok (START ++ nl ++ nl ++ python_section, Appended) /\
  splice python_section (START ++ nl ++ nl ++ python_section)
    = Ok (python_section, Updated) /\
  python_section <> START ++ nl ++ nl ++ python_section.
Proof.
  split; [vm_compute; reflexivity|]. split; [vm_compute; reflexivity|].
  intros H. apply (f_equal (@length N)) in H. vm_compute in H. discriminate.
Qed.

(** C6, amended. For a section rendered from clean language names (no
    backslash, no [<]) and a document that either has a sentinel-delimited
    region or has no start sentinel at all, the splice step returns a
    document on which a second run with the same section is an update that
    changes nothing. *)
Theorem splice_idempotent (languages : list pystr) (c : pystr) :
  forallb clean_name languages = true ->
  re_search c <> None \/ cut START c = None ->
  let s := build_tech_stack_section languages in
  exists u a, splice s c = Ok (u, a) /\ splice s u = Ok (u, Updated).
Proof.
  intros Hc Hdoc s.
  assert (Hs : ~ In backslash s)
    by (apply no_backslash_In, build_section_no_backslash, Hc).
  pose proof (section_body_first_END _ Hc) as Hb.
  assert (Es : s = START ++ section_body languages ++ END)
    by apply build_section_shape.
  destruct (re_search c) as [[[pre m] rest]|] eqn:Er.
  - (* update *)
    exists (sub_all (map TChar s) c), Updated. split.
    + apply splice_update_plain; [exact Hs | congruence].
    + rewrite splice_update_plain; [| exact Hs |].
      * rewrite Es. now rewrite (sub_all_idem _ c Hb).
      * rewrite sub_all_eq, Er, expand_plain, Es.
        replace (pre ++ (START ++ section_body languages ++ END)
                   ++ sub_all (map TChar (START ++ section_body languages ++ END)) rest)
          with (pre ++ START ++ section_body languages ++ END
                  ++ sub_all (map TChar (START ++ section_body languages ++ END)) rest)
          by (now rewrite <- !app_assoc).
        apply re_search_complete.
  - destruct Hdoc as [Hdoc | Hns]; [congruence|].
    unfold splice. rewrite Er.
    destruct (contains marker c) eqn:Em.
    + (* insert *)
      exists (str_replace marker (s ++ separator ++ marker) c), Inserted.
      split; [reflexivity|].
      pose proof (sub_all_inserted _ c [] Hb Hns (Forall_nil _)) as Hi.
      cbv zeta in Hi. rewrite <- Es in Hi. cbn [app] in Hi.
      assert (Hm : re_search (str_replace marker (s ++ separator ++ marker) c) <> None).
      { rewrite (str_replace_eq _ _ _ marker_nonempty). unfold contains in Em.
        destruct (cut marker c) as [[a b]|]; [|discriminate].
        rewrite Es.
        replace (a ++ ((START ++ section_body languages ++ END) ++ separator ++ marker)
                   ++ str_replace marker
                        ((START ++ section_body languages ++ END) ++ separator ++ marker) b)
          with (a ++ START ++ section_body languages ++ END
                  ++ (separator ++ marker
                        ++ str_replace marker
                             ((START ++ section_body languages ++ END)
                                ++ separator ++ marker) b))
          by (now rewrite <- !app_assoc).
        apply re_search_complete. }
      destruct (re_search (str_replace marker (s ++ separator ++ marker) c)) eqn:Er2;
        [|congruence].
      rewrite (re_sub_plain _ _ Hs), Hi. reflexivity.
    + (* append *)
      exists (c ++ nl ++ nl ++ s), Appended. split; [reflexivity|].
      assert (Hf : first_at START (c ++ nl ++ nl)).
      { apply first_at_unbordered; [exact START_unbordered|].
        apply cut_None_foreign;
          [exact START_nonempty | exact Hns | exact newlines_foreign_to_START]. }
      assert (E : c ++ nl ++ nl ++ s
                  = (c ++ nl ++ nl) ++ START ++ section_body languages ++ END ++ []).
      { rewrite Es. now rewrite <- !app_assoc, app_nil_r. }
      pose proof (re_search_region _ _ [] Hf Hb) as Hr2.
      rewrite <- E in Hr2. rewrite Hr2.
      rewrite (re_sub_plain _ _ Hs). rewrite E at 1.
      rewrite (sub_all_region s _ _ [] Hf Hb).
      rewrite (sub_all_no_match _ []); [| reflexivity].
      rewrite E, Es. now rewrite <- !app_assoc, !app_nil_r.
Qed.

Lemma splice_idempotent_witness :
  forallb clean_name [lit "Python"; lit "Zig"] = true /\
  (re_search doc_with_region <> None \/ cut START doc_with_region = None) /\
  let s := build_tech_stack_section [lit "Python"; lit "Zig"] in
  exists u a, splice s doc_with_region = Ok (u, a) /\ splice s u = Ok (u, Updated).
Proof.
  assert (H1 : forallb clean_name [lit "Python"; lit "Zig"] = true)
    by (vm_compute; reflexivity).
  assert (H2 : re_search doc_with_region <> None \/ cut START doc_with_region = None)
    by (left; vm_compute; discriminate).
  split; [exact H1|]. split; [exact H2|].
  exact (splice_idempotent [lit "Python"; lit "Zig"] doc_with_region H1 H2).
Defined.

(** ** Dictionaries *)

Lemma keys_dict_set {V : Type} (d : dict V) (k : pystr) (v : V) (x : pystr) :
  In x (keys (dict_set d k v)) <-> x = k \/ In x (keys d).
Proof.
  induction d as [|[k' v'] d IH]; simpl.
  - intuition.
  - destruct (pystr_eqb k k') eqn:E; simpl.
    + apply pystr_eqb_eq in E. subst. intuition.
    + rewrite IH. intuition.
Qed.

Lemma NoDup_dict_set {V : Type} (d : dict V) (k : pystr) (v : V) :
  NoDup (keys d) -> NoDup (keys (dict_set d k v)).
Proof.
  induction d as [|[k' v'] d IH]; simpl; intros H.
  - repeat constructor. intros [].
  - inversion H as [|? ? Hn Hd]; subst.
    destruct (pystr_eqb k k') eqn:E; simpl.
    + now constructor.
    + constructor; [|now apply IH].
      intros Hin. apply keys_dict_set in Hin. destruct Hin as [->|Hin].
      * now rewrite pystr_eqb_refl in E.
      * contradiction.
Qed.

Lemma dict_get_In {V : Type} (d : dict V) (k : pystr) (v : V) :
  NoDup (keys d) -> In (k, v) d -> dict_get d k = Some v.
Proof.
  induction d as [|[k' v'] d IH]; simpl; intros Hn Hin; [contradiction|].
  inversion Hn as [|? ? Hk Hd]; subst.
  destruct Hin as [[= -> ->]|Hin].
  - now rewrite pystr_eqb_refl.
  - destruct (pystr_eqb k k') eqn:E.
    + apply pystr_eqb_eq in E. subst. exfalso. apply Hk.
      apply in_map_iff. exists (k', v). auto.
    + now apply IH.
Qed.

(** ** The tally *)

Lemma tally_ok_nil : tally_ok [].
Proof. split; [constructor | intros l []]. Qed.

Lemma add_language_ok (totals : dict N) (item : pystr * N) :
  tally_ok totals -> tally_ok (add_language totals item).
Proof.
  intros [Hn Hs]. destruct item as [lang n]. unfold add_language.
  destruct (mem lang SKIP_LANGUAGES) eqn:E; cbn [negb]; [now split|].
  split; [now apply NoDup_dict_set|].
  intros l Hin. apply keys_dict_set in Hin. destruct Hin as [->|Hin]; [|auto].
  intros Hskip. apply mem_In in Hskip. congruence.
Qed.

Lemma add_languages_ok (langs totals : dict N) :
  tally_ok totals -> tally_ok (add_languages totals langs).
Proof.
  unfold add_languages. revert totals.
  induction langs as [|item langs IH]; intros totals H; [exact H|].
  simpl. apply IH. now apply add_language_ok.
Qed.

Lemma get_repo_languages_returns (cfg : config) (name : pystr) (w : world) :
  exists langs,
    get_repo_languages cfg name w
    = (Ok langs, log_request {| url := languages_url cfg name; headers := HEADERS cfg |} w).
Proof.
  unfold get_repo_languages, bind, requests_get_languages.
  destruct (status_code _ =? 200)%N; eexists; reflexivity.
Qed.

Lemma tally_repos_ok (cfg : config) (repos : list repo) (totals : dict N) (w : world)
      (totals' : dict N) (w' : world) :
  tally_ok totals ->
  tally_repos cfg repos totals w = (Ok totals', w') ->
  tally_ok totals'.
Proof.
  revert totals w. induction repos as [|r rest IH]; intros totals w Hok H.
  - simpl in H. unfold ret in H. now inversion H; subst.
  - simpl in H. destruct (repo_fork r); [now apply (IH _ _ Hok H)|].
    unfold bind in H.
    destruct (get_repo_languages_returns cfg (repo_name r) w) as [langs E].
    rewrite E in H. apply (IH _ _ (add_languages_ok langs _ Hok) H).
Qed.

Lemma aggregate_ok (cfg : config) (fuel : nat) (w : world) (totals : dict N) (w' : world) :
  aggregate cfg fuel w = (Ok totals, w') -> tally_ok totals.
Proof.
  unfold aggregate, bind.
  destruct (get_all_repos cfg fuel w) as [[repos|e|] w1]; [|discriminate|discriminate].
  apply tally_repos_ok. exact tally_ok_nil.
Qed.

Lemma detect_languages_eq (cfg : config) (fuel : nat) (w : world) :
  detect_languages cfg fuel w =
  match aggregate cfg fuel w with
  | (Ok totals, w') => (rank_languages totals, w')
  | (Raise e, w') => (Raise e, w')
  | (OutOfFuel, w') => (OutOfFuel, w')
  end.
Proof.
  unfold detect_languages, aggregate, bind, lift.
  destruct (get_all_repos cfg fuel w) as [[repos|e|] w1]; reflexivity.
Qed.

(** ** Filter and order *)

Lemma filter_share_filter (total_bytes : N) (items filtered : dict N) :
  filter_share total_bytes items = Ok filtered ->
  filtered = filter (passes total_bytes) items.
Proof.
  revert filtered. induction items as [|[l c] rest IH]; intros filtered; simpl.
  - now intros [= <-].
  - unfold passes at 1. cbn [snd].
    destruct (share_ok c total_bytes) as [b| |]; [|discriminate|discriminate].
    destruct (filter_share total_bytes rest) as [r| |]; [|discriminate|discriminate].
    intros [= <-]. rewrite (IH r eq_refl). now destruct b.
Qed.

Lemma NoDup_keys_filter {V : Type} (f : pystr * V -> bool) (d : dict V) :
  NoDup (keys d) -> NoDup (keys (filter f d)).
Proof.
  induction d as [|kv d IH]; simpl; intros H; [constructor|].
  inversion H as [|? ? Hn Hd]; subst.
  destruct (f kv); simpl; [|now apply IH].
  constructor; [|now apply IH].
  intros Hin. apply Hn. unfold keys in *. apply in_map_iff in Hin.
  destruct Hin as [x [Hx Hin]]. apply filter_In in Hin.
  apply in_map_iff. exists x. tauto.
Qed.

Lemma insert_desc_perm (key : pystr -> N) (x : pystr) (l : list pystr) :
  Permutation (insert_desc key x l) (x :: l).
Proof.
  induction l as [|y r IH]; simpl; [reflexivity|].
  destruct (key y <=? key x)%N; [reflexivity|].
  rewrite IH. apply perm_swap.
Qed.

Lemma sorted_desc_perm (key : pystr -> N) (l : list pystr) :
  Permutation (sorted_desc key l) l.
Proof.
  induction l as [|x l IH]; simpl; [reflexivity|].
  rewrite insert_desc_perm. now constructor.
Qed.

Lemma insert_desc_sorted (key : pystr -> N) (x : pystr) (l : list pystr) :
  StronglySorted (desc key) l -> StronglySorted (desc key) (insert_desc key x l).
Proof.
  induction l as [|y r IH]; simpl; intros H.
  - repeat constructor.
  - inversion H as [|? ? Hr Hy]; subst.
    destruct (key y <=? key x)%N eqn:E.
    + apply N.leb_le in E. constructor; [exact H|].
      constructor; [exact E|].
      eapply Forall_impl; [|exact Hy]. unfold desc. intros a Ha. lia.
    + apply N.leb_gt in E. constructor; [now apply IH|].
      eapply Permutation_Forall.
      * symmetry. apply insert_desc_perm.
      * constructor; [unfold desc; lia | exact Hy].
Qed.

Lemma sorted_desc_sorted (key : pystr -> N) (l : list pystr) :
  StronglySorted (desc key) (sorted_desc key l).
Proof.
  induction l as [|x l IH]; simpl; [constructor|].
  now apply insert_desc_sorted.
Qed.

Lemma StronglySorted_app_inv {A : Type} (R : A -> A -> Prop) (pre post : list A) (x : A) :
  StronglySorted R (pre ++ x :: post) -> Forall (R x) post.
Proof.
  induction pre as [|p pre IH]; simpl; intros H; inversion H; subst; auto.
Qed.

Lemma get_count_filter (f : pystr * N -> bool) (d : dict N) (k : pystr) :
  NoDup (keys d) -> In k (keys (filter f d)) ->
  get_count (filter f d) k = get_count d k.
Proof.
  intros Hn Hin. unfold keys in Hin. apply in_map_iff in Hin.
  destruct Hin as [[k' v] [Hk Hin]]. simpl in Hk. subst k'.
  unfold get_count.
  rewrite (dict_get_In _ _ v (NoDup_keys_filter f d Hn) Hin).
  apply filter_In in Hin. destruct Hin as [Hin _].
  now rewrite (dict_get_In _ _ v Hn Hin).
Qed.

(** What [rank_languages] returns: the keys that pass the filter, each once,
    in descending order of their count. *)
Lemma rank_languages_spec (totals : dict N) (out : list pystr) :
  NoDup (keys totals) ->
  rank_languages totals = Ok out ->
  Permutation out (keys (filter (passes (sum_values totals)) totals)) /\
  StronglySorted (desc (get_count totals)) out.
Proof.
  intros Hn. unfold rank_languages.
  destruct totals as [|kv totals'] eqn:Et.
  - intros [= <-]. split; constructor.
  - rewrite <- Et in *. clear Et kv totals'.
    destruct (filter_share (sum_values totals) totals) as [filtered| |] eqn:E;
      [|discriminate|discriminate].
    intros [= <-]. apply filter_share_filter in E. subst filtered.
    split; [apply sorted_desc_perm|].
    set (f := filter (passes (sum_values totals)) totals).
    pose proof (sorted_desc_sorted (get_count f) (keys f)) as Hs.
    pose proof (sorted_desc_perm (get_count f) (keys f)) as Hp.
    assert (Hin : forall k, In k (sorted_desc (get_count f) (keys f)) ->
                            get_count f k = get_count totals k).
    { intros k Hk. apply get_count_filter; [exact Hn|].
      now apply (Permutation_in _ Hp). }
    revert Hs Hin. generalize (sorted_desc (get_count f) (keys f)).
    induction l as [|x l IH]; intros Hs Hin; [constructor|].
    inversion Hs as [|? ? Hl Hx]; subst. constructor.
    + apply IH; [exact Hl | intros k Hk; apply Hin; now right].
    + apply Forall_forall. intros y Hy. rewrite Forall_forall in Hx.
      specialize (Hx y Hy). unfold desc in *.
      rewrite <- (Hin x (or_introl eq_refl)), <- (Hin y (or_intror Hy)). exact Hx.
Qed.

Lemma rank_of_detect (cfg : config) (fuel : nat) (w : world)
      (totals : dict N) (w' : world) (out : list pystr) (w'' : world) :
  aggregate cfg fuel w = (Ok totals, w') ->
  detect_languages cfg fuel w = (Ok out, w'') ->
  rank_languages totals = Ok out.
Proof.
  intros Ha Hd. rewrite detect_languages_eq, Ha in Hd. congruence.
Qed.

Lemma detect_has_tally (cfg : config) (fuel : nat) (w : world)
      (out : list pystr) (w' : world) :
  detect_languages cfg fuel w = (Ok out, w') ->
  exists totals, aggregate cfg fuel w = (Ok totals, w') /\ rank_languages totals = Ok out.
Proof.
  rewrite detect_languages_eq.
  destruct (aggregate cfg fuel w) as [[totals|e|] w1]; [|discriminate|discriminate].
  intros [= H <-]. exists totals. auto.
Qed.

Lemma keys_filter_incl {V : Type} (f : pystr * V -> bool) (d : dict V) (k : pystr) :
  In k (keys (filter f d)) -> In k (keys d).
Proof.
  unfold keys. rewrite !in_map_iff. intros [x [Hx Hin]].
  apply filter_In in Hin. exists x. tauto.
Qed.

(** ** Claims about the aggregator *)

(** C1. Whatever the repositories report, no language of the skip set is a
    key of the aggregated tally or an element of the sequence that
    [detect_languages] returns. *)
Theorem skip_languages_excluded (cfg : config) (fuel : nat) (w : world)
        (totals : dict N) (w' : world) :
  aggregate cfg fuel w = (Ok totals, w') ->
  (forall l, In l SKIP_LANGUAGES -> ~ In l (keys totals)) /\
  (forall out, detect_languages cfg fuel w = (Ok out, w') ->
               forall l, In l SKIP_LANGUAGES -> ~ In l out).
Proof.
  intros Ha. pose proof (aggregate_ok _ _ _ _ _ Ha) as [Hn Hs]. split.
  - intros l Hl Hin. exact (Hs l Hin Hl).
  - intros out Hd l Hl Hin.
    pose proof (rank_of_detect _ _ _ _ _ _ _ Ha Hd) as Hr.
    destruct (rank_languages_spec _ _ Hn Hr) as [Hp _].
    apply (Permutation_in _ Hp), keys_filter_incl in Hin.
    exact (Hs l Hin Hl).
Qed.

Lemma skip_languages_excluded_witness :
  aggregate sample_cfg 5 sample_world
    = (Ok [(lit "Dockerfile", 5%N); (lit "Python", 995%N)],
       snd (aggregate sample_cfg 5 sample_world)) /\
  (forall l, In l SKIP_LANGUAGES ->
             ~ In l (keys [(lit "Dockerfile", 5%N); (lit "Python", 995%N)])) /\
  (forall out,
      detect_languages sample_cfg 5 sample_world
      = (Ok out, snd (aggregate sample_cfg 5 sample_world)) ->
      forall l, In l SKIP_LANGUAGES -> ~ In l out).
Proof.
  assert (H : aggregate sample_cfg 5 sample_world
              = (Ok [(lit "Dockerfile", 5%N); (lit "Python", 995%N)],
                 snd (aggregate sample_cfg 5 sample_world)))
    by (vm_compute; reflexivity).
  split; [exact H|].
  exact (skip_languages_excluded sample_cfg 5 sample_world _ _ H).
Defined.

(** C2. The sequence returned by [detect_languages] is in descending order
    of aggregated byte count: of two of its elements, the later one never
    has more aggregated bytes than the earlier one. *)
Theorem languages_sorted_descending (cfg : config) (fuel : nat) (w : world)
        (totals : dict N) (w' : world) (out : list pystr) :
  aggregate cfg fuel w = (Ok totals, w') ->
  detect_languages cfg fuel w = (Ok out, w') ->
  forall pre x mid y post,
    out = pre ++ x :: mid ++ y :: post ->
    (get_count totals y <= get_count totals x)%N.
Proof.
  intros Ha Hd pre x mid y post E.
  pose proof (aggregate_ok _ _ _ _ _ Ha) as [Hn _].
  pose proof (rank_of_detect _ _ _ _ _ _ _ Ha Hd) as Hr.
  destruct (rank_languages_spec _ _ Hn Hr) as [_ Hs].
  rewrite E in Hs. apply StronglySorted_app_inv in Hs.
  rewrite Forall_forall in Hs. apply (Hs y).
  apply in_or_app. right. now left.
Qed.

Lemma languages_sorted_descending_witness :
  aggregate sample_cfg 5 sample_world
    = (Ok [(lit "Dockerfile", 5%N); (lit "Python", 995%N)],
       snd (aggregate sample_cfg 5 sample_world)) /\
  detect_languages sample_cfg 5 sample_world
    = (Ok [lit "Python"; lit "Dockerfile"], snd (aggregate sample_cfg 5 sample_world)) /\
  (get_count [(lit "Dockerfile", 5%N); (lit "Python", 995%N)] (lit "Dockerfile")
   <= get_count [(lit "Dockerfile", 5%N); (lit "Python", 995%N)] (lit "Python"))%N.
Proof.
  assert (H1 : aggregate sample_cfg 5 sample_world
               = (Ok [(lit "Dockerfile", 5%N); (lit "Python", 995%N)],
                  snd (aggregate sample_cfg 5 sample_world)))
    by (vm_compute; reflexivity).
  assert (H2 : detect_languages sample_cfg 5 sample_world
               = (Ok [lit "Python"; lit "Dockerfile"],
                  snd (aggregate sample_cfg 5 sample_world)))
    by (vm_compute; reflexivity).
  split; [exact H1|]. split; [exact H2|].
  exact (languages_sorted_descending sample_cfg 5 sample_world _ _ _ H1 H2
           [] (lit "Python") [] (lit "Dockerfile") [] eq_refl).
Defined.

(** C10. The sequence returned by [detect_languages] has no duplicates: the
    tally is keyed by language name. *)
Theorem languages_no_duplicates (cfg : config) (fuel : nat) (w : world)
        (out : list pystr) (w' : world) :
  detect_languages cfg fuel w = (Ok out, w') -> NoDup out.
Proof.
  intros Hd. destruct (detect_has_tally _ _ _ _ _ Hd) as [totals [Ha Hr]].
  pose proof (aggregate_ok _ _ _ _ _ Ha) as [Hn _].
  destruct (rank_languages_spec _ _ Hn Hr) as [Hp _].
  apply (Permutation_NoDup (Permutation_sym Hp)).
  now apply NoDup_keys_filter.
Qed.

Lemma languages_no_duplicates_witness :
  detect_languages sample_cfg 5 sample_world
    = (Ok [lit "Python"; lit "Dockerfile"], snd (detect_languages sample_cfg 5 sample_world)) /\
  NoDup [lit "Python"; lit "Dockerfile"].
Proof.
  assert (H : detect_languages sample_cfg 5 sample_world
              = (Ok [lit "Python"; lit "Dockerfile"],
                 snd (detect_languages sample_cfg 5 sample_world)))
    by (vm_compute; reflexivity).
  split; [exact H|].
  exact (languages_no_duplicates sample_cfg 5 sample_world _ _ H).
Defined.

(** ** Claims about the fetcher *)

Lemma authorization_HEADERS (cfg : config) (u : pystr) :
  authorization {| url := u; headers := HEADERS cfg |}
  = Some (lit "Bearer " ++ TOKEN cfg).
Proof. reflexivity. Qed.

Lemma get_all_repos_from_step (cfg : config) (f : nat) (page : N)
      (acc : list repo) (w : world) :
  get_all_repos_from cfg (S f) page acc w =
  let resp := repos_api w (length (sent w)) (repos_request cfg page) in
  let w1 := log_request (repos_request cfg page) w in
  if ((400 <=? status_code resp) && (status_code resp <? 600))%N
  then (Raise HTTPError, w1)
  else match json resp with
       | [] => (Ok acc, w1)
       | data => get_all_repos_from cfg f (page + 1)%N (acc ++ data) w1
       end.
Proof.
  cbn [get_all_repos_from]. unfold bind, requests_get_repos, raise_for_status.
  fold (repos_request cfg page). cbv zeta.
  destruct ((400 <=? status_code (repos_api w (length (sent w)) (repos_request cfg page)))
            && (status_code (repos_api w (length (sent w)) (repos_request cfg page))
                <? 600))%N; [reflexivity|].
  unfold ret.
  destruct (json (repos_api w (length (sent w)) (repos_request cfg page)));
    reflexivity.
Qed.

Lemma get_all_repos_from_sent (cfg : config) (fuel : nat) (page : N)
      (acc : list repo) (w : world) :
  exists o w' new,
    get_all_repos_from cfg fuel page acc w = (o, w') /\
    sent w' = sent w ++ new /\
    (fuel <> O -> new <> []) /\
    Forall (fun r => headers r = HEADERS cfg) new /\
    readme w' = readme w.
Proof.
  revert page acc w. induction fuel as [|f IH]; intros page acc w.
  - exists OutOfFuel, w, []. rewrite app_nil_r.
    split; [reflexivity|]. split; [reflexivity|]. split; [congruence|].
    split; [constructor | reflexivity].
  - rewrite get_all_repos_from_step. cbv zeta.
    set (req := repos_request cfg page).
    set (resp := repos_api w (length (sent w)) req).
    destruct ((400 <=? status_code resp) && (status_code resp <? 600))%N.
    + exists (Raise HTTPError), (log_request req w), [req].
      split; [reflexivity|]. split; [reflexivity|]. split; [discriminate|].
      split; [repeat constructor | reflexivity].
    + destruct (json resp) as [|r0 data] eqn:Ej.
      * exists (Ok acc), (log_request req w), [req].
        split; [reflexivity|]. split; [reflexivity|]. split; [discriminate|].
        split; [repeat constructor | reflexivity].
      * destruct (IH (page + 1)%N (acc ++ r0 :: data) (log_request req w))
          as [o [w' [new [E [Hs [_ [Hf Hr]]]]]]].
        exists o, w', (req :: new). rewrite E, Hs, Hr. simpl. rewrite <- app_assoc.
        split; [reflexivity|]. split; [reflexivity|]. split; [discriminate|].
        split; [constructor; [reflexivity | exact Hf] | reflexivity].
Qed.

(** C5, counterexample. With an empty token the request that
    [get_repo_languages] sends, and the one [get_all_repos] sends, still
    have an [Authorization] header: its value is the word Bearer followed
    by a space and nothing. *)
Lemma C5_empty_token_counterexample :
  TOKEN sample_cfg = [] /\
  map authorization
      (sent (snd (get_repo_languages sample_cfg (lit "demo") sample_world)))
    = [Some (lit "Bearer ")] /\
  map authorization (sent (snd (get_all_repos sample_cfg 1 sample_world)))
    = [Some (lit "Bearer ")].
Proof. repeat split; vm_compute; reflexivity. Qed.

(** C5, amended. Every request that [get_all_repos] and
    [get_repo_languages] send carries the header table [HEADERS], whose
    [Authorization] entry is the word Bearer, a space and the token,
    whether or not the token is empty; there is no unauthenticated form of
    a request. *)
Theorem requests_carry_bearer_header (cfg : config) (fuel : nat) (name : pystr)
        (w : world) :
  (exists new,
      sent (snd (get_all_repos cfg fuel w)) = sent w ++ new /\
      (fuel <> O -> new <> []) /\
      Forall (fun r => authorization r = Some (lit "Bearer " ++ TOKEN cfg)) new) /\
  (exists r,
      sent (snd (get_repo_languages cfg name w)) = sent w ++ [r] /\
      authorization r = Some (lit "Bearer " ++ TOKEN cfg)).
Proof.
  split.
  - destruct (get_all_repos_from_sent cfg fuel 1%N [] w)
      as [o [w' [new [E [Hs [Hne [Hf _]]]]]]].
    unfold get_all_repos. rewrite E.
    exists new. split; [exact Hs|]. split; [exact Hne|].
    eapply Forall_impl; [|exact Hf]. intros [u h] Hh. simpl in Hh. subst h.
    apply authorization_HEADERS.
  - destruct (get_repo_languages_returns cfg name w) as [langs E].
    rewrite E. eexists. split; [reflexivity|]. apply authorization_HEADERS.
Qed.

Lemma main_listing_raises (cfg : config) (fuel : nat) (w : world)
      (e : exn) (w' : world) :
  get_all_repos cfg fuel w = (Raise e, w') ->
  detect_languages cfg fuel w = (Raise e, w') /\ main cfg fuel w = (Raise e, w').
Proof.
  intros H. unfold main, detect_languages, bind. rewrite H. auto.
Qed.

(** C8. An error status in answer to a listing request makes that round of
    the listing loop raise at once, whatever was collected before, with no
    further request; an exception of the listing passes through
    [detect_languages] and [main] and leaves the README as it was. A status
    other than 200 in answer to a languages request makes
    [get_repo_languages] return the empty mapping, and the loop over the
    repositories goes on with the tally unchanged. *)
Theorem failure_policy (cfg : config) :
  (forall f page acc w,
      let resp := repos_api w (length (sent w)) (repos_request cfg page) in
      (400 <= status_code resp)%N -> (status_code resp < 600)%N ->
      get_all_repos_from cfg (S f) page acc w
      = (Raise HTTPError, log_request (repos_request cfg page) w)) /\
  (forall fuel w e w',
      get_all_repos cfg fuel w = (Raise e, w') ->
      detect_languages cfg fuel w = (Raise e, w') /\
      main cfg fuel w = (Raise e, w') /\
      readme w' = readme w) /\
  (forall name w,
      status_code (languages_api w (length (sent w)) (languages_request cfg name))
      <> 200%N ->
      get_repo_languages cfg name w
      = (Ok [], log_request (languages_request cfg name) w)) /\
  (forall r rest totals w,
      repo_fork r = false ->
      status_code (languages_api w (length (sent w))
                     (languages_request cfg (repo_name r))) <> 200%N ->
      tally_repos cfg (r :: rest) totals w
      = tally_repos cfg rest totals
          (log_request (languages_request cfg (repo_name r)) w)).
Proof.
  assert (Hg : forall name w,
             status_code (languages_api w (length (sent w)) (languages_request cfg name))
             <> 200%N ->
             get_repo_languages cfg name w
             = (Ok [], log_request (languages_request cfg name) w)).
  { intros name w H. unfold get_repo_languages, bind, requests_get_languages.
    fold (languages_request cfg name).
    destruct (N.eqb_spec
                (status_code (languages_api w (length (sent w))
                                (languages_request cfg name))) 200%N);
      [contradiction | reflexivity]. }
  split; [|split; [|split]].
  - intros f page acc w resp Hlo Hhi.
    rewrite get_all_repos_from_step. cbv zeta. fold resp.
    apply N.leb_le in Hlo. apply N.ltb_lt in Hhi. rewrite Hlo, Hhi. reflexivity.
  - intros fuel w e w' H.
    destruct (main_listing_raises _ _ _ _ _ H) as [Hd Hm].
    split; [exact Hd|]. split; [exact Hm|].
    destruct (get_all_repos_from_sent cfg fuel 1%N [] w)
      as [o [w1 [new [E [_ [_ [_ Hr]]]]]]].
    unfold get_all_repos in H. rewrite H in E. now inversion E; subst.
  - exact Hg.
  - intros r rest totals w Hf Hs. cbn [tally_repos]. rewrite Hf.
    unfold bind. rewrite (Hg _ _ Hs). reflexivity.
Qed.

Lemma failure_policy_witness :
  main sample_cfg 5 failing_world
    = (Raise HTTPError,
       log_request (repos_request sample_cfg 2)
         (log_request (repos_request sample_cfg 1) failing_world)) /\
  tally_repos sample_cfg
      [ {| repo_name := lit "demo"; repo_fork := false |} ] [] failing_world
    = (Ok [], log_request (languages_request sample_cfg (lit "demo")) failing_world).
Proof.
  destruct (failure_policy sample_cfg) as [Hlist [Hmain [_ Htally]]].
  split.
  - apply Hmain.
    assert (H1 : get_all_repos sample_cfg 5 failing_world
                 = get_all_repos_from sample_cfg 4 2%N
                     [ {| repo_name := lit "demo"; repo_fork := false |} ]
                     (log_request (repos_request sample_cfg 1) failing_world))
      by reflexivity.
    rewrite H1. apply Hlist; vm_compute; [discriminate | reflexivity].
  - rewrite Htally; [reflexivity | reflexivity | vm_compute; discriminate].
Defined.

(** ** Rounding *)

Local Open Scope Z_scope.

Lemma rne_ge (a b J : Z) : 0 < b -> J * b <= a -> J <= rne a b.
Proof.
  intros Hb H. unfold rne.
  pose proof (Z.div_mod a b ltac:(lia)) as E.
  pose proof (Z.mod_pos_bound a b Hb) as Hr.
  destruct (2 * (a mod b) ?= b); [destruct (Z.even (a / b))|..]; nia.
Qed.

Lemma rne_le (a b J : Z) : 0 < b -> a <= J * b -> rne a b <= J.
Proof.
  intros Hb H. unfold rne.
  pose proof (Z.div_mod a b ltac:(lia)) as E.
  pose proof (Z.mod_pos_bound a b Hb) as Hr.
  destruct (Z.compare_spec (2 * (a mod b)) b); [destruct (Z.even (a / b))|..]; nia.
Qed.

Lemma rne_ge_half (a b J : Z) : 0 < b -> (2 * J - 1) * b < 2 * a -> J <= rne a b.
Proof.
  intros Hb H. unfold rne.
  pose proof (Z.div_mod a b ltac:(lia)) as E.
  pose proof (Z.mod_pos_bound a b Hb) as Hr.
  destruct (Z.compare_spec (2 * (a mod b)) b); [destruct (Z.even (a / b))|..]; nia.
Qed.

Lemma rne_le_half (a b J : Z) : 0 < b -> 2 * a < (2 * J + 1) * b -> rne a b <= J.
Proof.
  intros Hb H. unfold rne.
  pose proof (Z.div_mod a b ltac:(lia)) as E.
  pose proof (Z.mod_pos_bound a b Hb) as Hr.
  destruct (Z.compare_spec (2 * (a mod b)) b); [destruct (Z.even (a / b))|..]; nia.
Qed.

(** [ilog2_ratio n d] is the exponent of the binade of [n / d]. *)
Lemma ilog2_ratio_spec (n d : Z) :
  0 < n -> 0 < d ->
  exists K L,
    ilog2_ratio n d = L - K /\ 0 <= L /\ 0 < K /\
    2 ^ L * d <= n * 2 ^ K /\ n * 2 ^ K < 2 ^ (L + 1) * d.
Proof.
  intros Hn Hd. unfold ilog2_ratio.
  set (K := Z.log2 d + 1). set (y := n * 2 ^ K / d).
  exists K, (Z.log2 y).
  pose proof (Z.log2_nonneg d) as HK.
  pose proof (Z.log2_spec d Hd) as [_ Hd2].
  change (Z.succ (Z.log2 d)) with K in Hd2.
  assert (HpK : 0 < 2 ^ K) by (apply Z.pow_pos_nonneg; lia).
  assert (Hy : 1 <= y).
  { unfold y. apply Z.div_le_lower_bound; [exact Hd | nia]. }
  pose proof (Z.log2_spec y ltac:(lia)) as [Hl Hu].
  change (Z.succ (Z.log2 y)) with (Z.log2 y + 1) in Hu.
  pose proof (Z.div_mod (n * 2 ^ K) d ltac:(lia)) as E. fold y in E.
  pose proof (Z.mod_pos_bound (n * 2 ^ K) d Hd) as Hr.
  split; [reflexivity|]. split; [apply Z.log2_nonneg|]. split; [unfold K; lia|].
  split; nia.
Qed.

(** In the normal range and below 2^53, the rounded quotient has 53
    significant bits at a non-positive exponent [- s]. *)
Lemma round_ratio_normal (n d : Z) :
  0 < n -> 0 < d -> n < d * 2 ^ 53 -> d < n * 2 ^ 1022 ->
  exists s,
    0 <= s /\
    round_ratio n d = Finite (rne (n * 2 ^ s) d) (- s) /\
    2 ^ 52 * d <= n * 2 ^ s /\ n * 2 ^ s < 2 ^ 53 * d.
Proof.
  intros Hn Hd Hhi Hlo.
  destruct (ilog2_ratio_spec n d Hn Hd) as [K [L [HE [HL [HK [Hl Hu]]]]]].
  assert (HpK : 0 < 2 ^ K) by (apply Z.pow_pos_nonneg; lia).
  assert (HpL : 0 < 2 ^ L) by (apply Z.pow_pos_nonneg; lia).
  assert (Hs : L <= 52 + K).
  { assert (H : 2 ^ L < 2 ^ (53 + K)).
    { rewrite (Z.pow_add_r 2 53 K) by lia. nia. }
    apply Z.pow_lt_mono_r_iff in H; lia. }
  assert (Hnorm : - 1022 <= L - K).
  { destruct (Z_le_gt_dec (- 1022) (L - K)) as [H|H]; [exact H|]. exfalso.
    assert (H1 : 2 ^ (L + 1) <= 2 ^ (K - 1022)) by (apply Z.pow_le_mono_r; lia).
    assert (H2 : 2 ^ (K - 1022) * 2 ^ 1022 = 2 ^ K).
    { rewrite <- Z.pow_add_r by lia. f_equal. lia. }
    assert (H3 : 0 < 2 ^ (K - 1022)) by (apply Z.pow_pos_nonneg; lia).
    nia. }
  set (s := 52 + K - L).
  assert (Hpow : 2 ^ L * 2 ^ s = 2 ^ 52 * 2 ^ K).
  { rewrite <- !Z.pow_add_r by (unfold s; lia). f_equal. unfold s. lia. }
  assert (Hps : 0 < 2 ^ s) by (apply Z.pow_pos_nonneg; unfold s; lia).
  assert (HL1 : 2 ^ (L + 1) = 2 * 2 ^ L).
  { rewrite Z.pow_add_r by lia. lia. }
  assert (Hb1 : 2 ^ 52 * d <= n * 2 ^ s) by nia.
  assert (Hb2 : n * 2 ^ s < 2 ^ 53 * d) by nia.
  exists s. split; [unfold s; lia|]. split; [|split; assumption].
  unfold round_ratio.
  destruct (Z.eqb_spec n 0) as [->|_]; [lia|].
  rewrite HE.
  replace (Z.max (L - K - 52) (-1074)) with (- s) by (unfold s; lia).
  replace (Z.max 0 (- - s)) with s by (unfold s; lia).
  replace (Z.max 0 (- s)) with 0 by (unfold s; lia).
  rewrite Z.pow_0_r, Z.mul_1_r.
  assert (Hm : rne (n * 2 ^ s) d <= 2 ^ 53) by (apply rne_le; lia).
  assert (Hq : 2 ^ (- s + 1074) <= 2 ^ 1074)
    by (apply Z.pow_le_mono_r; unfold s; lia).
  assert (Hq0 : 0 <= 2 ^ (- s + 1074)) by (apply Z.pow_nonneg; lia).
  assert (Hm0 : 0 <= rne (n * 2 ^ s) d) by (apply rne_ge; lia).
  destruct (Z.leb_spec (2 ^ 2098) (rne (n * 2 ^ s) d * 2 ^ (- s + 1074))) as [H|H];
    [|reflexivity].
  exfalso.
  assert (H5 : rne (n * 2 ^ s) d * 2 ^ (- s + 1074) <= 2 ^ 53 * 2 ^ 1074) by nia.
  assert (H6 : 2 ^ 53 * 2 ^ 1074 < 2 ^ 2098).
  { rewrite <- Z.pow_add_r by lia. apply Z.pow_lt_mono_r; lia. }
  lia.
Qed.

(** The quotient of the test, rounded: its mantissa [m] at exponent [- s]
    compares to a half of the quantum count exactly as the share compares
    to one in two hundred, with room to spare on the low side. *)
Lemma quotient_threshold (n d : Z) :
  0 < n -> n <= d -> d < 2 ^ 53 ->
  exists s,
    52 <= s /\ s <= 105 /\
    round_ratio n d = Finite (rne (n * 2 ^ s) d) (- s) /\
    2 ^ 52 <= rne (n * 2 ^ s) d <= 2 ^ 53 /\
    (d <= 200 * n -> 2 ^ s <= 200 * rne (n * 2 ^ s) d) /\
    (200 * n < d -> 100 * rne (n * 2 ^ s) d * 2 ^ 54 <= (2 ^ 53 - 1) * 2 ^ s).
Proof.
  intros Hn Hnd Hd.
  assert (H1022 : 2 ^ 53 < 2 ^ 1022) by (apply Z.pow_lt_mono_r; lia).
  destruct (round_ratio_normal n d Hn ltac:(lia) ltac:(lia) ltac:(nia))
    as [s [Hs [Hr [Hlo Hhi]]]].
  assert (Hps : 0 < 2 ^ s) by (apply Z.pow_pos_nonneg; lia).
  assert (Hs52 : 52 <= s).
  { destruct (Z_le_gt_dec 52 s) as [H|H]; [exact H|]. exfalso.
    assert (2 ^ s <= 2 ^ 51) by (apply Z.pow_le_mono_r; lia). nia. }
  assert (Hs105 : s <= 105).
  { destruct (Z_le_gt_dec s 105) as [H|H]; [exact H|]. exfalso.
    assert (2 ^ 106 <= 2 ^ s) by (apply Z.pow_le_mono_r; lia).
    assert (2 ^ 106 = 2 ^ 53 * 2 ^ 53) by reflexivity. nia. }
  set (m := rne (n * 2 ^ s) d) in *.
  assert (Hm1 : 2 ^ 52 <= m) by (apply rne_ge; lia).
  assert (Hm2 : m <= 2 ^ 53) by (apply rne_le; lia).
  exists s. split; [exact Hs52|]. split; [exact Hs105|]. split; [exact Hr|].
  split; [lia|].
  destruct (Z_lt_le_dec s 60) as [Hlt | Hge]; [|destruct (Z.eq_dec s 60) as [He | Hne]].
  - (* the quotient is at least 2^-7 *)
    assert (Hp : 2 ^ s <= 2 ^ 59) by (apply Z.pow_le_mono_r; lia).
    split; [lia | nia].
  - (* the binade of 1/200 *)
    subst s. split; intros H.
    + assert (Hm : 5764607523034235 <= m) by (apply rne_ge_half; lia). lia.
    + assert (Hm : m <= 5764607523034234) by (apply rne_le_half; lia). lia.
  - (* the quotient is below 2^-8 *)
    assert (Hp : 2 ^ 61 <= 2 ^ s) by (apply Z.pow_le_mono_r; lia).
    split; [nia | lia].
Qed.

(** Multiplying by 100 and comparing with 0.5. *)
Lemma percent_threshold (m s : Z) :
  52 <= s -> s <= 105 -> 2 ^ 52 <= m <= 2 ^ 53 ->
  (2 ^ s <= 200 * m -> float_ge (times100 (Finite m (- s))) MIN_PERCENT = true) /\
  (100 * m * 2 ^ 54 <= (2 ^ 53 - 1) * 2 ^ s ->
   float_ge (times100 (Finite m (- s))) MIN_PERCENT = false).
Proof.
  intros Hs1 Hs2 Hm.
  assert (Hps : 0 < 2 ^ s) by (apply Z.pow_pos_nonneg; lia).
  assert (Hp52 : 2 ^ 52 <= 2 ^ s) by (apply Z.pow_le_mono_r; lia).
  assert (Hp105 : 2 ^ s <= 2 ^ 105) by (apply Z.pow_le_mono_r; lia).
  assert (H1022 : 2 ^ 105 < 2 ^ 1022) by (apply Z.pow_lt_mono_r; lia).
  unfold times100.
  replace (Z.max 0 (- s)) with 0 by lia.
  replace (Z.max 0 (- - s)) with s by lia.
  rewrite Z.pow_0_r, Z.mul_1_r.
  destruct (round_ratio_normal (100 * m) (2 ^ s) ltac:(lia) Hps ltac:(nia) ltac:(nia))
    as [t [Ht [Hr [Hlo Hhi]]]].
  rewrite Hr. set (m' := rne (100 * m * 2 ^ t) (2 ^ s)) in *.
  assert (Hpt : 0 < 2 ^ t) by (apply Z.pow_pos_nonneg; lia).
  assert (Ht1 : 1 <= t).
  { destruct (Z.eq_dec t 0) as [->|]; [|lia]. exfalso.
    rewrite Z.pow_0_r in Hlo. nia. }
  assert (Hpt1 : 2 ^ t = 2 * 2 ^ (t - 1)).
  { replace t with (1 + (t - 1)) at 1 by lia. rewrite Z.pow_add_r by lia. reflexivity. }
  assert (Hpt0 : 0 < 2 ^ (t - 1)) by (apply Z.pow_pos_nonneg; lia).
  unfold float_ge, MIN_PERCENT.
  replace (Z.min (- t) (-1)) with (- t) by lia.
  replace (-1 - - t) with (t - 1) by lia.
  replace (- t - - t) with 0 by lia.
  rewrite Z.pow_0_r, Z.mul_1_r, Z.mul_1_l.
  split; intros H.
  - apply Z.leb_le. apply rne_ge; [exact Hps | nia].
  - apply Z.leb_gt.
    assert (Ht54 : 54 <= t).
    { destruct (Z_le_gt_dec 54 t) as [Hle|Hgt]; [exact Hle|]. exfalso.
      assert (2 ^ t <= 2 ^ 53) by (apply Z.pow_le_mono_r; lia). nia. }
    assert (Hpt54 : 2 ^ t = 2 ^ 54 * 2 ^ (t - 54)).
    { replace t with (54 + (t - 54)) at 1 by lia. rewrite Z.pow_add_r by lia.
      reflexivity. }
    assert (Hpt53 : 2 ^ (t - 1) = 2 ^ 53 * 2 ^ (t - 54)).
    { replace (t - 1) with (53 + (t - 54)) by lia. rewrite Z.pow_add_r by lia.
      reflexivity. }
    assert (Hq0 : 0 < 2 ^ (t - 54)) by (apply Z.pow_pos_nonneg; lia).
    assert (Hm' : m' <= (2 ^ 53 - 1) * 2 ^ (t - 54)) by (apply rne_le; [exact Hps | nia]).
    nia.
Qed.

Local Close Scope Z_scope.

(** Below 2^53 bytes in total, the floating-point test decides exactly
    whether the share is at least one in two hundred. *)
Lemma share_ok_exact (count total_bytes : N) :
  (0 < total_bytes)%N -> (total_bytes < 2 ^ 53)%N -> (count <= total_bytes)%N ->
  share_ok count total_bytes = Ok (total_bytes <=? 200 * count)%N.
Proof.
  intros H0 Hb Hc. unfold share_ok, py_truediv.
  destruct (N.eqb_spec total_bytes 0) as [->|_]; [lia|].
  destruct (N.eq_dec count 0) as [->|Hcz].
  - replace (total_bytes <=? 200 * 0)%N with false
      by (symmetry; apply N.leb_gt; lia).
    reflexivity.
  - assert (Hn : (0 < Z.of_N count)%Z) by lia.
    assert (Hnd : (Z.of_N count <= Z.of_N total_bytes)%Z) by lia.
    assert (Hd : (Z.of_N total_bytes < 2 ^ 53)%Z).
    { change (2 ^ 53)%Z with (Z.of_N (2 ^ 53)). lia. }
    destruct (quotient_threshold _ _ Hn Hnd Hd)
      as [s [Hs1 [Hs2 [Hr [Hm [Hyes Hno]]]]]].
    rewrite Hr.
    destruct (percent_threshold _ _ Hs1 Hs2 Hm) as [Pyes Pno].
    destruct (N.leb_spec total_bytes (200 * count)) as [Hle|Hgt].
    + rewrite Pyes; [reflexivity|]. apply Hyes. lia.
    + rewrite Pno; [reflexivity|]. apply Hno. lia.
Qed.

(** ** The share threshold *)

Lemma sum_values_ge (d : dict N) (l : pystr) (c : N) :
  In (l, c) d -> (c <= sum_values d)%N.
Proof.
  induction d as [|[k v] d IH]; simpl; intros H; [contradiction|].
  destruct H as [[= -> ->]|H]; [lia|]. specialize (IH H). lia.
Qed.

Lemma filter_share_exact (total_bytes : N) (items : dict N) :
  (0 < total_bytes)%N -> (total_bytes < 2 ^ 53)%N ->
  Forall (fun kv => (snd kv <= total_bytes)%N) items ->
  filter_share total_bytes items
  = Ok (filter (fun kv => (total_bytes <=? 200 * snd kv)%N) items).
Proof.
  intros H0 Hb. induction 1 as [|[l c] rest Hc Hrest IH]; [reflexivity|].
  cbn [filter_share filter snd] in *.
  rewrite (share_ok_exact _ _ H0 Hb Hc), IH. reflexivity.
Qed.

Lemma dict_get_Some_In {V : Type} (d : dict V) (k : pystr) (v : V) :
  dict_get d k = Some v -> In (k, v) d.
Proof.
  induction d as [|[k' v'] d IH]; simpl; [discriminate|].
  destruct (pystr_eqb k k') eqn:E.
  - apply pystr_eqb_eq in E. subst. intros [= ->]. now left.
  - intros H. right. now apply IH.
Qed.

(** C3, counterexample. With a tally of 2 * 10^16 + 1 bytes, a language of
    10^14 bytes has a share strictly below 0.5 percent, and the rounded
    quotient still passes the test: the language is in the output. *)
Lemma C3_rounding_counterexample :
  fst (aggregate sample_cfg 5 huge_world)
    = Ok [ (lit "Dockerfile", 100000000000000%N);
           (lit "Python", 19900000000000001%N) ] /\
  fst (detect_languages sample_cfg 5 huge_world)
    = Ok [lit "Python"; lit "Dockerfile"] /\
  (200 * 100000000000000 < 100000000000000 + 19900000000000001)%N.
Proof. repeat split; vm_compute; reflexivity. Qed.

(** C3, amended. When the aggregated tally sums to less than 2^53 bytes
    (and to more than none), [detect_languages] returns, and a language is
    in its output if and only if its aggregated bytes are at least one two
    hundredth (0.5 percent) of the total, the boundary included. *)
Theorem share_threshold (cfg : config) (fuel : nat) (w : world)
        (totals : dict N) (w' : world) :
  aggregate cfg fuel w = (Ok totals, w') ->
  (0 < sum_values totals)%N ->
  (sum_values totals < 2 ^ 53)%N ->
  exists out,
    detect_languages cfg fuel w = (Ok out, w') /\
    forall l,
      In l out <->
      exists c, dict_get totals l = Some c /\ (sum_values totals <= 200 * c)%N.
Proof.
  intros Ha H0 Hb.
  pose proof (aggregate_ok _ _ _ _ _ Ha) as [Hn _].
  set (total := sum_values totals) in *.
  set (keep := fun kv : list N * N => (total <=? 200 * snd kv)%N).
  assert (Hf : filter_share total totals = Ok (filter keep totals)).
  { apply filter_share_exact; [exact H0 | exact Hb |].
    apply Forall_forall. intros [l c] Hin. now apply (sum_values_ge totals l). }
  exists (sorted_desc (get_count (filter keep totals)) (keys (filter keep totals))).
  split.
  - rewrite detect_languages_eq, Ha. unfold rank_languages. fold total.
    destruct totals as [|kv rest]; [vm_compute in H0; discriminate|].
    now rewrite Hf.
  - intros l. split.
    + intros Hin. apply (Permutation_in _ (sorted_desc_perm _ _)) in Hin.
      unfold keys in Hin. apply in_map_iff in Hin.
      destruct Hin as [[k c] [Hk Hin]]. simpl in Hk. subst k.
      apply filter_In in Hin. destruct Hin as [Hin Hkeep].
      exists c. split; [now apply dict_get_In|].
      unfold keep in Hkeep. cbn [snd] in Hkeep. now apply N.leb_le.
    + intros [c [Hg Hc]].
      apply (Permutation_in _ (Permutation_sym (sorted_desc_perm _ _))).
      unfold keys. apply in_map_iff. exists (l, c). split; [reflexivity|].
      apply filter_In. split; [now apply dict_get_Some_In|].
      unfold keep. cbn [snd]. now apply N.leb_le.
Qed.

Lemma share_threshold_witness :
  aggregate sample_cfg 5 sample_world
    = (Ok [(lit "Dockerfile", 5%N); (lit "Python", 995%N)],
       snd (aggregate sample_cfg 5 sample_world)) /\
  (0 < sum_values [(lit "Dockerfile", 5%N); (lit "Python", 995%N)])%N /\
  (sum_values [(lit "Dockerfile", 5%N); (lit "Python", 995%N)] < 2 ^ 53)%N /\
  exists out,
    detect_languages sample_cfg 5 sample_world
      = (Ok out, snd (aggregate sample_cfg 5 sample_world)) /\
    forall l,
      In l out <->
      exists c,
        dict_get [(lit "Dockerfile", 5%N); (lit "Python", 995%N)] l = Some c /\
        (sum_values [(lit "Dockerfile", 5%N); (lit "Python", 995%N)] <= 200 * c)%N.
Proof.
  assert (H1 : aggregate sample_cfg 5 sample_world
               = (Ok [(lit "Dockerfile", 5%N); (lit "Python", 995%N)],
                  snd (aggregate sample_cfg 5 sample_world)))
    by (vm_compute; reflexivity).
  assert (H2 : (0 < sum_values [(lit "Dockerfile", 5%N); (lit "Python", 995%N)])%N)
    by (vm_compute; reflexivity).
  assert (H3 : (sum_values [(lit "Dockerfile", 5%N); (lit "Python", 995%N)] < 2 ^ 53)%N)
    by (vm_compute; reflexivity).
  split; [exact H1|]. split; [exact H2|]. split; [exact H3|].
  exact (share_threshold sample_cfg 5 sample_world _ _ H1 H2 H3).
Defined.

(** ** The examples of the specification *)

Example rank_three_languages :
  rank_languages [(lit "Python", 800%N); (lit "HTML", 150%N); (lit "CSS", 50%N)]
  = Ok [lit "Python"; lit "HTML"; lit "CSS"].
Proof. vm_compute. reflexivity. Qed.

Example rank_boundary_inclusive :
  rank_languages [(lit "Python", 995%N); (lit "Dockerfile", 5%N)]
  = Ok [lit "Python"; lit "Dockerfile"].
Proof. vm_compute. reflexivity. Qed.

Example rank_below_boundary :
  rank_languages [(lit "Python", 996%N); (lit "Dockerfile", 4%N)]
  = Ok [lit "Python"].
Proof. vm_compute. reflexivity. Qed.

Example rank_all_zero :
  rank_languages [(lit "Python", 0%N)] = Raise ZeroDivisionError.
Proof. vm_compute. reflexivity. Qed.

Example unknown_language_in_comment :
  build_tech_stack_section [lit "Python"; lit "Zig"]
  = START ++ nl ++ lit "## " ++ [128736%N; 65039%N] ++ lit " Tech Stack" ++ nl
      ++ lit "> Auto-detected from my repositories" ++ nl ++ nl
      ++ badge_of (lit "Python") ++ nl
      ++ lit "<!-- Also detected (no badge yet): Zig -->" ++ nl ++ nl ++ END.
Proof. vm_compute. reflexivity. Qed.

(** * Further properties of the script *)

(** ** Pagination *)

Lemma page_requests_cons (cfg : config) (page : N) (n : nat) :
  page_requests cfg page (S n)
  = repos_request cfg page :: page_requests cfg (page + 1) n.
Proof.
  unfold page_requests. cbn [seq map]. rewrite N.add_0_r. f_equal.
  rewrite <- seq_shift, map_map. apply map_ext. intros i. f_equal. lia.
Qed.

Lemma get_all_repos_from_pages (cfg : config) (pages : list (list repo)) :
  forall (fuel : nat) (page : N) (acc : list repo) (w : world),
    length pages < fuel ->
    Forall (fun p => p <> []) pages ->
    (forall i, i <= length pages ->
       let resp := repos_api w (length (sent w) + i)
                     (repos_request cfg (page + N.of_nat i)) in
       ((400 <=? status_code resp) && (status_code resp <? 600))%N = false /\
       json resp = nth i pages []) ->
    exists w',
      get_all_repos_from cfg fuel page acc w = (Ok (acc ++ concat pages), w') /\
      sent w' = sent w ++ page_requests cfg page (S (length pages)) /\
      readme w' = readme w.
Proof.
  induction pages as [|p ps IH]; intros fuel page acc w Hf Hne H.
  - destruct fuel as [|f]; [simpl in Hf; lia|].
    rewrite get_all_repos_from_step. cbv zeta.
    destruct (H 0%nat (le_n _)) as [Hs Hj].
    rewrite Nat.add_0_r, N.add_0_r in Hs, Hj. rewrite Hs, Hj. simpl nth.
    exists (log_request (repos_request cfg page) w).
    split; [simpl; now rewrite app_nil_r|].
    split; [|reflexivity].
    now rewrite page_requests_cons.
  - destruct fuel as [|f]; [simpl in Hf; lia|].
    rewrite get_all_repos_from_step. cbv zeta.
    destruct (H 0%nat ltac:(simpl; lia)) as [Hs Hj].
    rewrite Nat.add_0_r, N.add_0_r in Hs, Hj. rewrite Hs, Hj. simpl nth.
    inversion Hne as [|? ? Hp Hps]; subst.
    destruct p as [|r0 p]; [congruence|].
    assert (Hf' : length ps < f) by (simpl in Hf; lia).
    assert (H' : forall i, i <= length ps ->
              let resp := repos_api (log_request (repos_request cfg page) w)
                            (length (sent (log_request (repos_request cfg page) w)) + i)
                            (repos_request cfg (page + 1 + N.of_nat i)) in
              ((400 <=? status_code resp) && (status_code resp <? 600))%N = false /\
              json resp = nth i ps []).
    { intros i Hi. cbv zeta.
      specialize (H (S i) ltac:(simpl; lia)). cbv zeta in H.
      replace (length (sent (log_request (repos_request cfg page) w)) + i)%nat
        with (length (sent w) + S i)%nat
        by (simpl; rewrite length_app; simpl; lia).
      replace (page + 1 + N.of_nat i)%N with (page + N.of_nat (S i))%N by lia.
      exact H. }
    destruct (IH f (page + 1)%N (acc ++ r0 :: p)
                (log_request (repos_request cfg page) w) Hf' Hps H')
      as [w' [E [Hsent Hread]]].
    exists w'. rewrite E, Hsent, Hread.
    split; [simpl; now rewrite <- app_assoc|].
    split; [|reflexivity].
    cbn [sent log_request length]. rewrite <- app_assoc.
    now rewrite (page_requests_cons cfg page (S (length ps))).
Qed.

(** X1. When the listing answers the first pages with non-empty bodies and
    the next one with an empty body, none of them with an error status,
    [get_all_repos] returns all the repositories in page order, after one
    request per page, the empty one included, for pages 1, 2, ... *)
Theorem pagination_collects_all_pages (cfg : config) (pages : list (list repo))
        (fuel : nat) (w : world) :
  length pages < fuel ->
  Forall (fun p => p <> []) pages ->
  (forall i, i <= length pages ->
     let resp := repos_api w (length (sent w) + i)
                   (repos_request cfg (N.of_nat (S i))) in
     ((400 <=? status_code resp) && (status_code resp <? 600))%N = false /\
     json resp = nth i pages []) ->
  exists w',
    get_all_repos cfg fuel w = (Ok (concat pages), w') /\
    sent w' = sent w ++ page_requests cfg 1 (S (length pages)) /\
    readme w' = readme w.
Proof.
  intros Hf Hne H. unfold get_all_repos.
  apply (get_all_repos_from_pages cfg pages fuel 1%N [] w Hf Hne).
  intros i Hi. specialize (H i Hi). cbv zeta in *.
  replace (1 + N.of_nat i)%N with (N.of_nat (S i)) by lia. exact H.
Qed.

Lemma pagination_collects_all_pages_witness :
  exists w',
    get_all_repos sample_cfg 5 sample_world
    = (Ok [ {| repo_name := lit "demo"; repo_fork := false |};
            {| repo_name := lit "copy"; repo_fork := true |} ], w') /\
    sent w' = sent sample_world ++ page_requests sample_cfg 1 2 /\
    readme w' = readme sample_world.
Proof.
  apply (pagination_collects_all_pages sample_cfg
           [[ {| repo_name := lit "demo"; repo_fork := false |};
              {| repo_name := lit "copy"; repo_fork := true |} ]] 5 sample_world).
  - simpl. lia.
  - repeat constructor. discriminate.
  - intros i Hi. simpl in Hi.
    destruct i as [|[|i]]; [split; reflexivity | split; reflexivity | lia].
Defined.

Lemma get_all_repos_from_endless (cfg : config) (fuel : nat) :
  forall (page : N) (acc : list repo) (w : world),
    (forall i r,
        ((400 <=? status_code (repos_api w i r))
         && (status_code (repos_api w i r) <? 600))%N = false /\
        json (repos_api w i r) <> []) ->
    fst (get_all_repos_from cfg fuel page acc w) = OutOfFuel.
Proof.
  induction fuel as [|f IH]; intros page acc w H; [reflexivity|].
  rewrite get_all_repos_from_step. cbv zeta.
  destruct (H (length (sent w)) (repos_request cfg page)) as [Hs Hj].
  rewrite Hs.
  destruct (json (repos_api w (length (sent w)) (repos_request cfg page)))
    as [|r0 data]; [congruence|].
  apply IH. exact H.
Qed.

(** X2. The listing loop has no page limit of its own: against a listing
    that answers every request with a non-empty page and no error status,
    [get_all_repos] does not return within any number of pages. *)
Theorem pagination_needs_an_empty_page (cfg : config) (w : world) (fuel : nat) :
  (forall i r,
      ((400 <=? status_code (repos_api w i r))
       && (status_code (repos_api w i r) <? 600))%N = false /\
      json (repos_api w i r) <> []) ->
  fst (get_all_repos cfg fuel w) = OutOfFuel.
Proof.
  intros H. unfold get_all_repos. now apply get_all_repos_from_endless.
Qed.

Lemma pagination_needs_an_empty_page_witness :
  fst (get_all_repos sample_cfg 40 endless_world) = OutOfFuel.
Proof.
  apply (pagination_needs_an_empty_page sample_cfg endless_world 40).
  intros i r. split; [reflexivity | discriminate].
Defined.

(** ** The loop over the repositories *)

Lemma get_repo_languages_eq (cfg : config) (name : pystr) (w : world) :
  get_repo_languages cfg name w =
  (Ok (if (status_code (languages_api w (length (sent w))
                          (languages_request cfg name)) =? 200)%N
       then json (languages_api w (length (sent w)) (languages_request cfg name))
       else []),
   log_request (languages_request cfg name) w).
Proof.
  unfold get_repo_languages, bind, requests_get_languages.
  fold (languages_request cfg name).
  destruct (status_code (languages_api w (length (sent w))
                           (languages_request cfg name)) =? 200)%N; reflexivity.
Qed.

Lemma keys_add_language (d : dict N) (k : pystr) (v : N) :
  (exists extra, keys (add_language d (k, v)) = keys d ++ extra) /\
  (forall l, In l (keys (add_language d (k, v))) -> In l (keys d) \/ l = k).
Proof.
  unfold add_language. destruct (negb (mem k SKIP_LANGUAGES)).
  - split.
    + generalize (match dict_get d k with Some v0 => v0 | None => 0 end + v)%N.
      intros n. induction d as [|[k' v'] d IHd]; simpl.
      * exists [k]. reflexivity.
      * destruct (pystr_eqb k k'); simpl.
        -- exists []. now rewrite app_nil_r.
        -- destruct IHd as [e1 ->]. exists e1. reflexivity.
    + intros l Hl. apply keys_dict_set in Hl. tauto.
  - split; [exists []; now rewrite app_nil_r | auto].
Qed.

Lemma keys_add_languages (langs d : dict N) :
  (exists extra, keys (add_languages d langs) = keys d ++ extra) /\
  (forall l, In l (keys (add_languages d langs)) ->
             In l (keys d) \/ In l (keys langs)).
Proof.
  unfold add_languages. revert d.
  induction langs as [|[k v] langs IHl]; intros d.
  - split; [exists []; simpl; now rewrite app_nil_r | auto].
  - cbn [fold_left]. destruct (IHl (add_language d (k, v))) as [[ex He] Hin].
    destruct (keys_add_language d k v) as [[e1 He1] Hin1]. split.
    + exists (e1 ++ ex). rewrite He, He1. now rewrite <- app_assoc.
    + intros l Hl. destruct (Hin l Hl) as [H1 | H1].
      * destruct (Hin1 l H1) as [H2 | ->]; [now left | right; now left].
      * right. now right.
Qed.

Lemma tally_repos_trace (cfg : config) (repos : list repo) :
  forall (totals : dict N) (w : world),
  exists totals' w',
    tally_repos cfg repos totals w = (Ok totals', w') /\
    sent w' = sent w
                ++ map (fun r => languages_request cfg (repo_name r))
                       (filter (fun r => negb (repo_fork r)) repos) /\
    readme w' = readme w /\
    languages_api w' = languages_api w /\
    (exists extra, keys totals' = keys totals ++ extra) /\
    (forall l, In l (keys totals') ->
               In l (keys totals) \/
               exists i r, status_code (languages_api w i r) = 200%N /\
                           In l (keys (json (languages_api w i r)))).
Proof.
  induction repos as [|r rest IH]; intros totals w.
  - exists totals, w. split; [reflexivity|]. simpl. rewrite !app_nil_r.
    split; [reflexivity|]. split; [reflexivity|]. split; [reflexivity|].
    split; [exists []; now rewrite app_nil_r | auto].
  - cbn [tally_repos filter]. destruct (repo_fork r) eqn:Ef; cbn [negb].
    + apply IH.
    + unfold bind. rewrite get_repo_languages_eq.
      set (req := languages_request cfg (repo_name r)).
      set (resp := languages_api w (length (sent w)) req).
      set (langs := if (status_code resp =? 200)%N then json resp else []).
      destruct (IH (add_languages totals langs) (log_request req w))
        as [t' [w' [E [Hs [Hr [Ha [[ex He] Hin]]]]]]].
      exists t', w'. split; [exact E|]. rewrite Hs, Hr, Ha.
      cbn [sent log_request map readme languages_api].
      split; [now rewrite <- app_assoc|]. split; [reflexivity|].
      split; [reflexivity|].
      destruct (keys_add_languages langs totals) as [[e0 He0] Hk]. split.
      * exists (e0 ++ ex). rewrite He, He0. now rewrite <- app_assoc.
      * intros l Hl. destruct (Hin l Hl) as [H1 | H1]; [|right; exact H1].
        destruct (Hk l H1) as [H2 | H2]; [now left|].
        right. exists (length (sent w)), req. fold resp. unfold langs in H2.
        destruct (N.eqb_spec (status_code resp) 200) as [E200|]; [|contradiction].
        split; assumption.
Qed.


Lemma get_all_repos_from_languages_api (cfg : config) (fuel : nat) :
  forall (page : N) (acc : list repo) (w : world),
    languages_api (snd (get_all_repos_from cfg fuel page acc w)) = languages_api w.
Proof.
  induction fuel as [|f IH]; intros page acc w; [reflexivity|].
  rewrite get_all_repos_from_step. cbv zeta.
  destruct ((400 <=? _) && _)%N; [reflexivity|].
  destruct (json _); [reflexivity|]. now rewrite IH.
Qed.

(** X4. Every language of the tally was reported by a languages response
    with status 200: nothing enters the tally from a failed fetch or from
    anywhere else. *)
Theorem tally_languages_were_reported (cfg : config) (fuel : nat) (w : world)
        (totals : dict N) (w' : world) :
  aggregate cfg fuel w = (Ok totals, w') ->
  forall l, In l (keys totals) ->
    exists i r, status_code (languages_api w i r) = 200%N /\
                In l (keys (json (languages_api w i r))).
Proof.
  unfold aggregate, bind. intros H l Hl.
  pose proof (get_all_repos_from_languages_api cfg fuel 1%N [] w) as Hapi.
  fold (get_all_repos cfg fuel) in Hapi.
  destruct (get_all_repos cfg fuel w) as [[repos|e|] w1]; [|discriminate|discriminate].
  simpl in Hapi.
  destruct (tally_repos_trace cfg repos [] w1) as [t' [w2 [E [_ [_ [_ [_ Hin]]]]]]].
  rewrite E in H. inversion H; subst.
  destruct (Hin l Hl) as [[] | Hr]. rewrite Hapi in Hr. exact Hr.
Qed.

Lemma tally_languages_were_reported_witness :
  exists i r, status_code (languages_api sample_world i r) = 200%N /\
              In (lit "Python") (keys (json (languages_api sample_world i r))).
Proof.
  apply (tally_languages_were_reported sample_cfg 5 sample_world
           [(lit "Dockerfile", 5%N); (lit "Python", 995%N)]
           (snd (aggregate sample_cfg 5 sample_world))).
  - vm_compute. reflexivity.
  - right. left. reflexivity.
Defined.



(** ** Summation *)

Lemma dict_get_dict_set {V : Type} (d : dict V) (k : pystr) (v : V) (k' : pystr) :
  dict_get (dict_set d k v) k' = if pystr_eqb k' k then Some v else dict_get d k'.
Proof.
  induction d as [|[k0 v0] d IH]; simpl.
  - reflexivity.
  - destruct (pystr_eqb k k0) eqn:E; simpl.
    + apply pystr_eqb_eq in E. subst k0.
      destruct (pystr_eqb k' k); reflexivity.
    + destruct (pystr_eqb k' k0) eqn:E0.
      * apply pystr_eqb_eq in E0. subst k0.
        destruct (pystr_eqb k' k) eqn:E1; [|reflexivity].
        apply pystr_eqb_eq in E1. subst. now rewrite pystr_eqb_refl in E.
      * exact IH.
Qed.

Lemma pystr_eqb_sym (a b : list N) : pystr_eqb a b = pystr_eqb b a.
Proof.
  destruct (pystr_eqb a b) eqn:E; symmetry.
  - apply pystr_eqb_eq in E. subst. apply pystr_eqb_refl.
  - apply pystr_eqb_neq. apply pystr_eqb_neq in E. congruence.
Qed.

(** X6. Adding a repository's mapping to the tally adds, for every language
    outside the skip set, exactly the bytes the mapping reports for it, and
    leaves the count of a skip-set language as it was. *)
Theorem add_languages_sums (langs totals : dict N) (l : list N) :
  get_count (add_languages totals langs) l
  = if mem l SKIP_LANGUAGES then get_count totals l
    else (get_count totals l + bytes_of langs l)%N.
Proof.
  unfold add_languages. revert totals.
  induction langs as [|[k v] langs IH]; intros totals.
  - cbn [fold_left bytes_of fold_right].
    destruct (mem l SKIP_LANGUAGES); [reflexivity | now rewrite N.add_0_r].
  - cbn [fold_left]. rewrite IH. clear IH.
    assert (Hstep : get_count (add_language totals (k, v)) l
                    = if pystr_eqb k l
                      then (if mem k SKIP_LANGUAGES then get_count totals l
                            else get_count totals l + v)%N
                      else get_count totals l).
    { unfold add_language, get_count.
      destruct (mem k SKIP_LANGUAGES) eqn:Ek; cbn [negb].
      - destruct (pystr_eqb k l); reflexivity.
      - rewrite dict_get_dict_set, (pystr_eqb_sym l k).
        destruct (pystr_eqb k l) eqn:E; [|reflexivity].
        apply pystr_eqb_eq in E. now subst. }
    rewrite Hstep. cbn [bytes_of fold_right fst snd]. fold (bytes_of langs l).
    destruct (pystr_eqb k l) eqn:E.
    + apply pystr_eqb_eq in E. subst k.
      destruct (mem l SKIP_LANGUAGES); [reflexivity | lia].
    + reflexivity.
Qed.

(** ** Ties, empty results and division by zero *)

Lemma insert_desc_filter (key : list N -> N) (c : N) (x : list N) (l : list (list N)) :
  filter (fun k => (key k =? c)%N) (insert_desc key x l)
  = filter (fun k => (key k =? c)%N) (x :: l).
Proof.
  induction l as [|y r IH]; [reflexivity|].
  cbn [insert_desc]. destruct (N.leb_spec (key y) (key x)) as [Hle|Hgt]; [reflexivity|].
  cbn [filter] in *. rewrite IH.
  destruct (N.eqb_spec (key x) c) as [Ex|Ex];
    destruct (N.eqb_spec (key y) c) as [Ey|Ey]; try reflexivity.
  lia.
Qed.

Lemma sorted_desc_stable (key : list N -> N) (c : N) (l : list (list N)) :
  filter (fun k => (key k =? c)%N) (sorted_desc key l)
  = filter (fun k => (key k =? c)%N) l.
Proof.
  induction l as [|x l IH]; [reflexivity|].
  cbn [sorted_desc fold_right]. fold (sorted_desc key l).
  rewrite insert_desc_filter. cbn [filter]. now rewrite IH.
Qed.

(** X7. Ties are broken by the order of the tally: the returned languages
    that share one byte count appear in the order in which the retained
    languages stand in the tally (the order in which they were first
    seen). *)
Theorem ties_keep_tally_order (totals : dict N) (out : list (list N)) (c : N) :
  NoDup (keys totals) ->
  rank_languages totals = Ok out ->
  filter (fun l => (get_count totals l =? c)%N) out
  = filter (fun l => (get_count totals l =? c)%N)
           (keys (filter (passes (sum_values totals)) totals)).
Proof.
  intros Hn. unfold rank_languages.
  destruct totals as [|kv totals'] eqn:Et.
  - now intros [= <-].
  - rewrite <- Et in *. clear Et kv totals'.
    destruct (filter_share (sum_values totals) totals) as [filtered| |] eqn:E;
      [|discriminate|discriminate].
    intros [= <-]. apply filter_share_filter in E. subst filtered.
    set (f := filter (passes (sum_values totals)) totals).
    rewrite (filter_ext_in (fun l => (get_count totals l =? c)%N)
                           (fun l => (get_count f l =? c)%N)
                           (sorted_desc (get_count f) (keys f))).
    + rewrite sorted_desc_stable. apply filter_ext_in.
      intros l Hl. unfold f. now rewrite get_count_filter.
    + intros l Hl. apply (Permutation_in _ (sorted_desc_perm _ _)) in Hl.
      unfold f. now rewrite get_count_filter.
Qed.

Lemma ties_keep_tally_order_witness :
  filter (fun l => (get_count [(lit "Go", 5%N); (lit "C", 5%N); (lit "Rust", 90%N)] l
                    =? 5)%N)
         [lit "Rust"; lit "Go"; lit "C"]
  = filter (fun l => (get_count [(lit "Go", 5%N); (lit "C", 5%N); (lit "Rust", 90%N)] l
                      =? 5)%N)
           (keys (filter (passes (sum_values
                                    [(lit "Go", 5%N); (lit "C", 5%N); (lit "Rust", 90%N)]))
                         [(lit "Go", 5%N); (lit "C", 5%N); (lit "Rust", 90%N)])).
Proof.
  apply (ties_keep_tally_order
           [(lit "Go", 5%N); (lit "C", 5%N); (lit "Rust", 90%N)]
           [lit "Rust"; lit "Go"; lit "C"] 5%N).
  - vm_compute. repeat constructor; simpl; intuition discriminate.
  - vm_compute. reflexivity.
Defined.

Lemma detect_languages_readme (cfg : config) (fuel : nat) (w : world)
      (o : outcome (list (list N))) (w' : world) :
  detect_languages cfg fuel w = (o, w') -> readme w' = readme w.
Proof.
  unfold detect_languages, bind, lift.
  destruct (get_all_repos_from_sent cfg fuel 1%N [] w)
    as [o1 [w1 [new [E [_ [_ [_ Hr1]]]]]]].
  unfold get_all_repos. rewrite E.
  destruct o1 as [repos|e|]; [|intros [= _ <-]; exact Hr1 | intros [= _ <-]; exact Hr1].
  destruct (tally_repos_trace cfg repos [] w1) as [t' [w2 [E2 [_ [Hr2 _]]]]].
  rewrite E2. intros [= _ <-]. congruence.
Qed.

Lemma rank_languages_zero (totals : dict N) :
  totals <> [] -> sum_values totals = 0%N ->
  rank_languages totals = Raise ZeroDivisionError.
Proof.
  intros Hne Hz. unfold rank_languages.
  destruct totals as [|[l c] rest]; [congruence|].
  rewrite Hz. reflexivity.
Qed.

(** X8. When the tally is not empty and its byte counts sum to zero (every
    language was reported with zero bytes), the percentage divides by zero:
    the run ends with [ZeroDivisionError] and the README is not touched. *)
Theorem zero_total_raises (cfg : config) (fuel : nat) (w : world)
        (totals : dict N) (w' : world) :
  aggregate cfg fuel w = (Ok totals, w') ->
  totals <> [] ->
  sum_values totals = 0%N ->
  main cfg fuel w = (Raise ZeroDivisionError, w') /\ readme w' = readme w.
Proof.
  intros Ha Hne Hz.
  assert (Hd : detect_languages cfg fuel w = (Raise ZeroDivisionError, w')).
  { rewrite detect_languages_eq, Ha. now rewrite rank_languages_zero. }
  split; [|exact (detect_languages_readme _ _ _ _ _ Hd)].
  unfold main, bind. now rewrite Hd.
Qed.

Lemma zero_total_raises_witness :
  main sample_cfg 5 zero_world
    = (Raise ZeroDivisionError, snd (aggregate sample_cfg 5 zero_world)) /\
  readme (snd (aggregate sample_cfg 5 zero_world)) = readme zero_world.
Proof.
  apply (zero_total_raises sample_cfg 5 zero_world [(lit "Python", 0%N)]).
  - vm_compute. reflexivity.
  - discriminate.
  - reflexivity.
Defined.

Lemma below_share_sum (T : N) (d : dict N) :
  d <> [] ->
  Forall (fun kv => (200 * snd kv < T)%N) d ->
  (200 * sum_values d < N.of_nat (length d) * T)%N.
Proof.
  intros Hne H. induction H as [|[l c] rest Hc Hrest IH]; [congruence|].
  cbn [sum_values fold_right snd length] in *. fold (sum_values rest).
  destruct rest as [|kv rest'].
  - change (sum_values (@nil (list N * N))) with 0%N.
    change (N.of_nat (S (length (@nil (list N * N))))) with 1%N. lia.
  - specialize (IH ltac:(discriminate)). rewrite Nat2N.inj_succ.
    set (sm := sum_values (kv :: rest')) in *.
    set (n := N.of_nat (length (kv :: rest'))) in *. nia.
Qed.

(** X9. With at most 200 languages in the tally and a total above zero and
    below 2^53 bytes, the result is not empty: some language holds at least
    one two hundredth of the bytes. *)
Theorem few_languages_some_result (totals : dict N) :
  (0 < sum_values totals)%N ->
  (sum_values totals < 2 ^ 53)%N ->
  length totals <= 200 ->
  exists l rest, rank_languages totals = Ok (l :: rest).
Proof.
  intros H0 Hb Hlen.
  set (total := sum_values totals) in *.
  set (keep := fun kv : list N * N => (total <=? 200 * snd kv)%N).
  assert (Hf : filter_share total totals = Ok (filter keep totals)).
  { apply filter_share_exact; [exact H0 | exact Hb |].
    apply Forall_forall. intros [l c] Hin. now apply (sum_values_ge totals l). }
  assert (Hne : totals <> []) by (intros ->; vm_compute in H0; discriminate).
  assert (Hk : filter keep totals <> []).
  { intros He.
    assert (Hall : Forall (fun kv => (200 * snd kv < total)%N) totals).
    { apply Forall_forall. intros kv Hin.
      destruct (N.ltb_spec (200 * snd kv) total) as [Hlt|Hge]; [exact Hlt|].
      exfalso. assert (Hin' : In kv (filter keep totals)).
      { apply filter_In. split; [exact Hin|]. unfold keep. now apply N.leb_le. }
      rewrite He in Hin'. contradiction. }
    pose proof (below_share_sum total totals Hne Hall) as Hs. fold total in Hs.
    assert (N.of_nat (length totals) <= 200)%N by lia. nia. }
  unfold rank_languages. fold total. rewrite Hf.
  destruct totals as [|kv0 rest0]; [congruence|].
  pose proof (sorted_desc_perm (get_count (filter keep (kv0 :: rest0)))
                (keys (filter keep (kv0 :: rest0)))) as Hp.
  destruct (sorted_desc (get_count (filter keep (kv0 :: rest0)))
              (keys (filter keep (kv0 :: rest0)))) as [|l rest] eqn:Es.
  - apply Permutation_nil in Hp. unfold keys in Hp. apply map_eq_nil in Hp.
    contradiction.
  - exists l, rest. reflexivity.
Qed.

Lemma few_languages_some_result_witness :
  exists l rest,
    rank_languages [(lit "Dockerfile", 5%N); (lit "Python", 995%N)] = Ok (l :: rest).
Proof.
  apply (few_languages_some_result [(lit "Dockerfile", 5%N); (lit "Python", 995%N)]).
  - vm_compute. reflexivity.
  - vm_compute. reflexivity.
  - simpl. lia.
Defined.

(** ** The document after a splice *)

Lemma splice_result_shape (s c u : list N) (a : action) :
  no_backslash s = true ->
  splice s c = Ok (u, a) ->
  exists x y, u = x ++ s ++ y.
Proof.
  intros Hs. apply no_backslash_In in Hs. unfold splice.
  destruct (re_search c) as [[[pre m] rest]|] eqn:Er.
  - rewrite (re_sub_plain _ _ Hs). intros [= <- _].
    rewrite sub_all_eq, Er, expand_plain. eauto.
  - unfold contains. destruct (cut marker c) as [[p q]|] eqn:Ec.
    + intros [= <- _]. rewrite (str_replace_eq _ _ _ marker_nonempty), Ec.
      exists p. eexists. rewrite <- !app_assoc. reflexivity.
    + intros [= <- _]. exists (c ++ nl ++ nl), [].
      now rewrite <- !app_assoc, app_nil_r.
Qed.

(** X10. Whichever path the splice takes, a section without backslashes
    appears verbatim in the document it returns. *)
Theorem spliced_document_contains_section (s c u : list N) (a : action) :
  no_backslash s = true ->
  splice s c = Ok (u, a) ->
  contains s u = true.
Proof.
  intros Hs H. destruct (splice_result_shape _ _ _ _ Hs H) as [x [y ->]].
  unfold contains.
  destruct (cut s (x ++ s ++ y)) eqn:E; [reflexivity|].
  exfalso. exact (cut_None_no_occurrence s x y E).
Qed.

Lemma spliced_document_contains_section_witness :
  contains python_section
    (lit "# Hi" ++ nl ++ python_section ++ separator ++ marker ++ nl ++ lit "stats")
  = true.
Proof.
  apply (spliced_document_contains_section python_section doc_with_marker _ Inserted).
  - vm_compute. reflexivity.
  - vm_compute. reflexivity.
Defined.

(** X11. A section rendered from clean language names is itself exactly one
    match of the region pattern, with nothing before or after it. *)
Theorem rendered_section_is_one_region (languages : list (list N)) :
  forallb clean_name languages = true ->
  re_search (build_tech_stack_section languages)
  = Some ([], build_tech_stack_section languages, []).
Proof.
  intros Hc. rewrite build_section_shape.
  assert (Hp : first_at START [])
    by (apply first_at_unbordered; [exact START_unbordered | exact cut_START_nil]).
  pose proof (re_search_region [] (section_body languages) [] Hp
                (section_body_first_END _ Hc)) as H.
  cbn [app] in H. rewrite !app_nil_r in H. exact H.
Qed.

Lemma rendered_section_is_one_region_witness :
  re_search (build_tech_stack_section [lit "Python"; lit "Zig"])
  = Some ([], build_tech_stack_section [lit "Python"; lit "Zig"], []).
Proof.
  apply (rendered_section_is_one_region [lit "Python"; lit "Zig"]).
  vm_compute. reflexivity.
Defined.

(** X12. After a splice of a section rendered from clean language names the
    document holds a sentinel-delimited region, so that the next run takes
    the update path. *)
Theorem spliced_document_has_region (languages : list (list N)) (c u : list N)
        (a : action) :
  forallb clean_name languages = true ->
  splice (build_tech_stack_section languages) c = Ok (u, a) ->
  exists pre m rest, re_search u = Some (pre, m, rest).
Proof.
  intros Hc H.
  destruct (splice_result_shape _ _ _ _ (build_section_no_backslash _ Hc) H)
    as [x [y ->]].
  destruct (re_search (x ++ build_tech_stack_section languages ++ y))
    as [[[pre m] rest]|] eqn:E; [eauto|].
  exfalso. rewrite build_section_shape in E.
  apply (re_search_complete x (section_body languages) y).
  rewrite <- E. now rewrite <- !app_assoc.
Qed.

Lemma spliced_document_has_region_witness :
  exists pre m rest,
    re_search (doc_plain ++ nl ++ nl ++ build_tech_stack_section [lit "Python"; lit "Zig"])
    = Some (pre, m, rest).
Proof.
  apply (spliced_document_has_region [lit "Python"; lit "Zig"] doc_plain _ Appended).
  - vm_compute. reflexivity.
  - vm_compute. reflexivity.
Defined.

(** ** The whole run *)


